(** * ExploreCSR / eeg_analysis.ipynb: windowed feature extraction

    A shallow embedding of the code cells of [eeg_analysis.ipynb]: the
    windowing loop over every recording, the zero-power guard of
    [compute_band_relpower], the leave-one-subject-out split and the
    standardisation step, together with the properties the specification
    states about them.

    Conventions.
    - Python integers are [Z]; a one-dimensional array is a [list]; the
      recording matrix (samples x columns) is a list of rows.
    - A Python exception is a value [Raise e] of the type [result].
    - [scipy.signal.welch], [scipy.integrate.simps] and
      [sklearn.preprocessing.StandardScaler] are library code, not code of
      the notebook: they enter the definitions as arguments.
    - The blanks of the notebook (its [???]) enter as arguments as well,
      except the test half of the split, which follows the notebook's own
      comment. *)

From Stdlib Require Import String Ascii ZArith Bool Lia QArith Lqa Floats List.
Import ListNotations.
Local Open Scope Z_scope.

(** ** Python exceptions *)

Inductive exn : Type :=
| ValueError
| IndexError
| NotFittedError
| UnknownSubject.

Inductive result (A : Type) : Type :=
| Ok (a : A)
| Raise (e : exn).

Arguments Ok {A} a.
Arguments Raise {A} e.

Definition bind {A B : Type} (m : result A) (k : A -> result B) : result B :=
  match m with
  | Ok a => k a
  | Raise e => Raise e
  end.

Notation "x <- m ;; k" := (bind m (fun x => k))
  (at level 61, m at next level, right associativity).

(** A [for] loop whose body may raise: the state is threaded through the
    iterations, the first exception ends the loop. *)
Fixpoint for_each {S I : Type} (body : S -> I -> result S)
         (items : list I) (st : S) : result S :=
  match items with
  | [] => Ok st
  | i :: rest => st' <- body st i ;; for_each body rest st'
  end.

(** A list comprehension whose element expression may raise. *)
Fixpoint map_result {A B : Type} (f : A -> result B) (l : list A)
  : result (list B) :=
  match l with
  | [] => Ok []
  | a :: rest => b <- f a ;; bs <- map_result f rest ;; Ok (b :: bs)
  end.

(** ** The arithmetic of an array's dtype

    The notebook computes in float64. The definitions below are written
    once over the operations they use; [float_dtype] instantiates them
    with IEEE 754 binary64, [Q_dtype] with exact rationals. *)

Class Dtype (num : Type) : Type := {
  lit : Q -> num;
  add : num -> num -> num;
  sub : num -> num -> num;
  mul : num -> num -> num;
  div : num -> num -> num;
  eqb : num -> num -> bool;
  leb : num -> num -> bool;
  ltb : num -> num -> bool
}.

Definition float_of_Z (z : Z) : float :=
  match z with
  | Z0 => 0%float
  | Zpos _ => PrimFloat.of_uint63 (Uint63.of_Z z)
  | Zneg p => PrimFloat.opp (PrimFloat.of_uint63 (Uint63.of_Z (Zpos p)))
  end.

#[export] Instance float_dtype : Dtype float := {|
  lit q := PrimFloat.div (float_of_Z (Qnum q)) (float_of_Z (Zpos (Qden q)));
  add := PrimFloat.add;
  sub := PrimFloat.sub;
  mul := PrimFloat.mul;
  div := PrimFloat.div;
  eqb := PrimFloat.eqb;
  leb := PrimFloat.leb;
  ltb := PrimFloat.ltb
|}.

#[export] Instance Q_dtype : Dtype Q := {|
  lit q := q;
  add := Qplus;
  sub := Qminus;
  mul := Qmult;
  div := Qdiv;
  eqb := Qeq_bool;
  leb := Qle_bool;
  ltb a b := negb (Qle_bool b a)
|}.

(** ** Python built-ins used by the windowing loop *)

Module Py.

(** [range(start, stop, step)] with a positive step: [ix] starts at
    [start] and advances by [step] while [ix < stop]. The recursion is on
    a bound for the number of iterations; [range] below supplies
    [stop - start], which suffices for every step >= 1. *)
Fixpoint range_up (fuel : nat) (ix stop step : Z) : list Z :=
  match fuel with
  | O => []
  | S fuel' =>
      if ix <? stop then ix :: range_up fuel' (ix + step) stop step else []
  end.

(** The same for a negative step: [ix] decreases while [ix > stop]. *)
Fixpoint range_down (fuel : nat) (ix stop step : Z) : list Z :=
  match fuel with
  | O => []
  | S fuel' =>
      if stop <? ix then ix :: range_down fuel' (ix + step) stop step else []
  end.

(** [range(start, stop, step)]; a zero step is a [ValueError]. *)
Definition range (start stop step : Z) : result (list Z) :=
  if step =? 0 then Raise ValueError
  else if 0 <? step
       then Ok (range_up (Z.to_nat (stop - start)) start stop step)
       else Ok (range_down (Z.to_nat (start - stop)) start stop step).

(** Index adjustment of a slice bound (step 1): a negative bound counts
    from the end, and every bound is clipped to [0, len]. *)
Definition adjust_index (len i : Z) : Z :=
  if i <? 0 then Z.max 0 (i + len) else Z.min i len.

(** [l[lo:hi]]. Slicing never raises. *)
Definition slice {A : Type} (l : list A) (lo hi : Z) : list A :=
  let len := Z.of_nat (length l) in
  let lo' := adjust_index len lo in
  let hi' := adjust_index len hi in
  firstn (Z.to_nat (hi' - lo')) (skipn (Z.to_nat lo') l).

(** [l[i]] for an index [i >= 0]. *)
Definition index {A : Type} (l : list A) (i : nat) : result A :=
  match nth_error l i with
  | Some a => Ok a
  | None => Raise IndexError
  end.

(** [s.split(sep)[0]]: the part of [s] before the first [sep], the whole
    of [s] when [sep] does not occur. *)
Fixpoint split_head (sep : ascii) (s : string) : string :=
  match s with
  | EmptyString => EmptyString
  | String c rest =>
      if Ascii.eqb c sep then EmptyString else String c (split_head sep rest)
  end.

End Py.

(** ** NumPy operations *)

Module Np.

(** [a[:, :-1]] on a list of rows. *)
Definition drop_last_column {A : Type} (a : list (list A)) : list (list A) :=
  map (fun row => Py.slice row 0 (-1)) a.

(** [a[:, -1]]: the last column; a row without columns has none. *)
Fixpoint last_column {A : Type} (a : list (list A)) : result (list A) :=
  match a with
  | [] => Ok []
  | row :: rest =>
      match rev row with
      | [] => Raise IndexError
      | v :: _ => col <- last_column rest ;; Ok (v :: col)
      end
  end.

(** [np.any(v)]: some element is truthy, that is, [v != 0] holds for it. *)
Definition any {num : Type} `{Dtype num} (v : list num) : bool :=
  existsb (fun x => negb (eqb x (lit 0))) v.

(** [np.logical_not(mask)] *)
Definition logical_not (mask : list bool) : list bool := map negb mask.

(** [a[mask]] for a Boolean mask over the first axis: the entries at the
    positions where the mask holds, in order. A mask whose length differs
    from that of [a] is an [IndexError]. *)
Definition mask_select {A : Type} (a : list A) (mask : list bool)
  : result (list A) :=
  if Nat.eqb (length mask) (length a)
  then Ok (map snd (filter fst (combine mask a)))
  else Raise IndexError.

(** [np.vstack(rows)]: the rows stacked into a matrix. No row at all, or
    rows of different lengths, is a [ValueError]. *)
Definition vstack {A : Type} (rows : list (list A)) : result (list (list A)) :=
  match rows with
  | [] => Raise ValueError
  | first :: _ =>
      if forallb (fun r => Nat.eqb (length r) (length first)) rows
      then Ok rows
      else Raise ValueError
  end.

End Np.

(** ** Configuration constants of the notebook *)

Module Config.

Definition sampling_rate : Z := 256.
Definition window_size_seconds : Z := 4.
Definition stride_seconds : Z := 2.
Definition window_size : Z := window_size_seconds * sampling_rate.
Definition stride : Z := stride_seconds * sampling_rate.
Definition test_subject : string := "chb01".

End Config.

(** ** Band relative power *)

Section BandPower.
Context {num : Type} `{Dtype num}.

(** [signal.welch(X, fs=256.0, axis=0)]: the frequencies and the PSD
    estimate. The estimate is held one channel at a time: the [c]-th list
    is the column [psd[:, c]]. *)
Variable welch : list (list num) -> list num * list (list num).

(** [integrate.simps(v, dx=dx)] on the samples of one channel; with
    [axis=0] the notebook applies it to every column. The call may raise:
    scipy's rule does on an empty list of samples. *)
Variable simps : list num -> num -> result num.

Definition bands : list (num * num) :=
  [ (lit (1 # 2), lit 4); (lit 4, lit 8); (lit 8, lit 13);
    (lit 13, lit 32); (lit 32, lit 60) ].

(** [where = lambda lb, ub: np.logical_and(freqs >= lb, freqs < ub)] *)
Definition where_ (freqs : list num) (lb ub : num) : list bool :=
  map (fun f => leb lb f && ltb f ub) freqs.

(** [integrate.simps(psd[where(lb, ub),:], dx=fr_res, axis=0)]: the rows
    are selected first, on all columns, then every column is
    integrated. *)
Definition band_power (freqs : list num) (psd : list (list num))
           (fr_res : num) (band : num * num) : result (list num) :=
  let '(lb, ub) := band in
  selected <-
    map_result (fun col => Np.mask_select col (where_ freqs lb ub)) psd ;;
  map_result (fun col => simps col fr_res) selected.

(** [abs_power[:,total_power == 0] = 0] *)
Definition zero_where_no_power (total_power : list num)
           (abs_power : list (list num)) : list (list num) :=
  map (fun row =>
         map (fun at_ => if eqb (snd at_) (lit 0) then lit 0 else fst at_)
             (combine row total_power))
      abs_power.

(** [total_power[total_power == 0] = -1] *)
Definition minus_one_where_no_power (total_power : list num) : list num :=
  map (fun t => if eqb t (lit 0) then lit (-1) else t) total_power.

(** [abs_power / total_power]: every row divided entry by entry. *)
Definition divide_rows (abs_power : list (list num))
           (total_power : list num) : list (list num) :=
  map (fun row => map (fun at_ => div (fst at_) (snd at_))
                      (combine row total_power))
      abs_power.

(** The rows of the result before [.ravel()]: one row per band, one entry
    per channel. *)
Definition band_relpower_rows (X : list (list num))
  : result (list (list num)) :=
  let '(freqs, psd) := welch X in
  f1 <- Py.index freqs 1 ;;
  f0 <- Py.index freqs 0 ;;
  let fr_res := sub f1 f0 in
  abs_power <- map_result (band_power freqs psd fr_res) bands ;;
  total_power <- map_result (fun col => simps col fr_res) psd ;;
  let abs_power := zero_where_no_power total_power abs_power in
  let total_power := minus_one_where_no_power total_power in
  Ok (divide_rows abs_power total_power).

Definition compute_band_relpower (X : list (list num)) : result (list num) :=
  rows <- band_relpower_rows X ;;
  Ok (concat rows).

End BandPower.

(** ** The windowing loop *)

(** One node of the HDF5 file: its name and its N x 3 array. *)
Record node (num : Type) : Type := mkNode {
  v_name : string;
  read : list (list num)
}.
Arguments mkNode {num} _ _.
Arguments v_name {num} _.
Arguments read {num} _.

(** The three lists the loop appends to. *)
Record dataset (num : Type) : Type := mkDataset {
  features : list (list num);
  labels : list bool;
  subjects : list string
}.
Arguments mkDataset {num} _ _ _.
Arguments features {num} _.
Arguments labels {num} _.
Arguments subjects {num} _.

Definition empty_dataset {num : Type} : dataset num := mkDataset [] [] [].

(** [subject_id = node._v_name.split("/")[0].split("_")[0]] *)
Definition subject_id_of (name : string) : string :=
  Py.split_head "_"%char (Py.split_head "/"%char name).

Section Windowing.
Context {num : Type} `{Dtype num}.

(** The feature vector of one window: [compute_band_relpower(X_w)]
    concatenated with the means and variances, which the notebook leaves
    blank. *)
Variable feature_vector_of : list (list num) -> result (list num).

Variables window_size stride : Z.

(** [range(window_size, num_obs, stride)] *)
Definition window_starts (num_obs : Z) : result (list Z) :=
  Py.range window_size num_obs stride.

(** [X[ix-window_size:ix,:]] and [y[ix-window_size:ix]] *)
Definition window_at {A : Type} (a : list A) (ix : Z) : list A :=
  Py.slice a (ix - window_size) ix.

(** The windows of one recording in loop order: the pairs [(X_w, y_w)]
    the loop body works on. *)
Definition windows (X : list (list num)) (y : list num)
  : result (list (list (list num) * list num)) :=
  starts <- window_starts (Z.of_nat (length X)) ;;
  Ok (map (fun ix => (window_at X ix, window_at y ix)) starts).

(** The body of the inner loop for the start index [ix]. *)
Definition window_body (subject_id : string) (X : list (list num))
           (y : list num) (d : dataset num) (ix : Z) : result (dataset num) :=
  let X_w := window_at X ix in
  feature_vector <- feature_vector_of X_w ;;
  Ok (mkDataset (features d ++ [feature_vector])
                (labels d ++ [Np.any (window_at y ix)])
                (subjects d ++ [subject_id])).

(** The body of the outer loop: one node of the file. *)
Definition process_node (d : dataset num) (nd : node num)
  : result (dataset num) :=
  let node_data := read nd in
  let subject_id := subject_id_of (v_name nd) in
  let X := Np.drop_last_column node_data in
  y <- Np.last_column node_data ;;
  let num_obs := Z.of_nat (length X) in
  starts <- window_starts num_obs ;;
  for_each (window_body subject_id X y) starts d.

(** The whole cell: every node of the file, starting from empty lists. *)
Definition extract (nodes : list (node num)) : result (dataset num) :=
  for_each process_node nodes empty_dataset.

End Windowing.

(** ** Train/test split *)

Record split_sets (num : Type) : Type := mkSplit {
  X_train : list (list num);
  y_train : list bool;
  X_test : list (list num);
  y_test : list bool
}.
Arguments mkSplit {num} _ _ _ _.
Arguments X_train {num} _.
Arguments y_train {num} _.
Arguments X_test {num} _.
Arguments y_test {num} _.

(** [is_test_set = (subjects == "chb01")], for any held-out subject. *)
Definition is_test_set (test_subject_id : string) (subjects : list string)
  : list bool :=
  map (fun s => String.eqb s test_subject_id) subjects.

(** [X_train = X[np.logical_not(is_test_set),:]] and
    [y_train = y[np.logical_not(is_test_set)]] *)
Definition split_train {num : Type} (mask : list bool)
           (X : list (list num)) (y : list bool)
  : result (list (list num) * list bool) :=
  X_train <- Np.mask_select X (Np.logical_not mask) ;;
  y_train <- Np.mask_select y (Np.logical_not mask) ;;
  Ok (X_train, y_train).

(** Modelled from the spec: the notebook leaves [X_test] and [y_test]
    blank ([???]). The specification gives the test set as "all rows where
    subject == test_subject_id", "preserving row order", and says that the
    splitter "fails with UnknownSubject if test_subject_id matches no
    row". *)
Definition split_test {num : Type} (mask : list bool)
           (X : list (list num)) (y : list bool)
  : result (list (list num) * list bool) :=
  if existsb (fun selected => selected) mask
  then
    X_test <- Np.mask_select X mask ;;
    y_test <- Np.mask_select y mask ;;
    Ok (X_test, y_test)
  else Raise UnknownSubject.

(** The first half of the split cell, on the arrays of the cell before
    it. *)
Definition split_cell {num : Type} (test_subject_id : string)
           (X : list (list num)) (y : list bool) (subjects : list string)
  : result (split_sets num) :=
  let mask := is_test_set test_subject_id subjects in
  train <- split_train mask X y ;;
  test <- split_test mask X y ;;
  Ok (mkSplit (fst train) (snd train) (fst test) (snd test)).

(** The cell that stacks the lists, then the first half of the split
    cell. *)
Definition split {num : Type} (test_subject_id : string) (d : dataset num)
  : result (split_sets num) :=
  X <- Np.vstack (features d) ;;
  split_cell test_subject_id X (labels d) (subjects d).

(** ** Standardisation *)

Section Standardizer.
Context {num stats : Type}.

(** The statistics [StandardScaler.fit] computes from a matrix (per
    feature, the mean and the scale), and the rescaling of a matrix with
    given statistics. *)
Variable fit_stats : list (list num) -> result stats.
Variable apply_stats : stats -> list (list num) -> result (list (list num)).

(** The scaler object: it holds no statistics until it is fitted. *)
Definition scaler : Type := option stats.

(** [S = StandardScaler()] *)
Definition StandardScaler : scaler := None.

(** [S.fit_transform(X)]: fits [S] on [X], then rescales [X]. *)
Definition fit_transform (S : scaler) (X : list (list num))
  : result (scaler * list (list num)) :=
  st <- fit_stats X ;;
  X' <- apply_stats st X ;;
  Ok (Some st, X').

(** [S.transform(X)]: rescales [X] with the statistics [S] holds. *)
Definition transform (S : scaler) (X : list (list num))
  : result (list (list num)) :=
  match S with
  | None => Raise NotFittedError
  | Some st => apply_stats st X
  end.

(** The last three lines of the split cell. The result carries the final
    state of [S] next to the two rescaled matrices. *)
Definition standardize (X_train X_test : list (list num))
  : result (scaler * list (list num) * list (list num)) :=
  let S := StandardScaler in
  fitted <- fit_transform S X_train ;;
  let S := fst fitted in
  let X_train := snd fitted in
  X_test <- transform S X_test ;;
  Ok (S, X_train, X_test).

End Standardizer.

(** ** Simpson's rule *)

Section Simpson.
Context {num : Type} `{Dtype num}.

(** The composite rule over consecutive pairs of intervals:
    [sum(dx/3 * (y[0::2] + 4*y[1::2] + y[2::2]))]. *)
Fixpoint basic_simps (y : list num) (dx : num) : num :=
  match y with
  | y0 :: y1 :: ((y2 :: _) as rest) =>
      add (mul (div dx (lit 3)) (add (add y0 (mul (lit 4) y1)) y2))
          (basic_simps rest dx)
  | _ => lit 0
  end.

(** The trapezoid on the first and on the last interval. *)
Definition trapezoid_first (y : list num) (dx : num) : num :=
  match y with
  | y0 :: y1 :: _ => mul (mul (lit (1 # 2)) dx) (add y1 y0)
  | _ => lit 0
  end.

Definition trapezoid_last (y : list num) (dx : num) : num :=
  match rev y with
  | yl :: yl' :: _ => mul (mul (lit (1 # 2)) dx) (add yl yl')
  | _ => lit 0
  end.

(** Modelled from the spec: [scipy.integrate.simps] is library code; the
    specification describes it as numerical integration "using the
    trapezoid/Simpson rule with spacing equal to the frequency
    resolution". For an odd number of samples this is the composite
    Simpson rule. For an even number it is the average of the rule on the
    first N-1 samples plus a trapezoid on the last interval and the rule
    on the last N-1 samples plus a trapezoid on the first interval. On an
    empty list of samples the rule indexes a last sample that does not
    exist: IndexError. *)
Definition simps (y : list num) (dx : num) : result num :=
  match y with
  | [] => Raise IndexError
  | _ :: tail =>
      if Nat.even (length y)
      then
        let val := trapezoid_last y dx in
        let result := basic_simps (removelast y) dx in
        let val := add val (trapezoid_first y dx) in
        let result := add result (basic_simps tail dx) in
        Ok (add (div result (lit 2)) (div val (lit 2)))
      else Ok (basic_simps y dx)
  end.

End Simpson.

(** ** Window counts

    [range_len] is the number of elements of [range(start, stop, step)]
    for a positive step. The two other counts are the formulas the
    specification gives for the number of windows of a recording. *)

Definition range_len (start stop step : Z) : Z :=
  Z.max 0 ((stop - start - 1) / step + 1).

(** Specification, testable properties: max(0, floor((num_obs -
    window_size)/stride) + 1). *)
Definition spec_count_inclusive (num_obs window_size stride : Z) : Z :=
  Z.max 0 ((num_obs - window_size) / stride + 1).

(** Specification, data model invariant: floor((num_obs -
    window_size)/stride). *)
Definition spec_count_invariant (num_obs window_size stride : Z) : Z :=
  (num_obs - window_size) / stride.

(** ** Sample recordings *)

(** A recording of [n] samples on the exact dtype: two channels and the
    indicator column, the latter holding [flag] on the samples
    [lo <= i < hi] and 0 elsewhere. *)
Definition sample_row (lo hi : Z) (flag : Q) (i : Z) : list Q :=
  [ inject_Z i; inject_Z (2 * i);
    if (lo <=? i) && (i <? hi) then flag else 0%Q ].

Definition recording (n : nat) (lo hi : Z) (flag : Q) : list (list Q) :=
  map (fun k => sample_row lo hi flag (Z.of_nat k)) (seq 0 n).

(** The same recording as the loop sees it: [X] and [y]. *)
Definition channels (n : nat) : list (list Q) :=
  Np.drop_last_column (recording n 0 0 0).

Definition indicator (n : nat) (lo hi : Z) (flag : Q) : list Q :=
  map (fun row => last row 0%Q) (recording n lo hi flag).

(** A node holding such a recording. *)
Definition sample_node (n : nat) (lo hi : Z) (flag : Q) : node Q :=
  mkNode "chb01_03" (recording n lo hi flag).

(** A feature extractor that never fails: the per-window sample count. *)
Definition count_features (X_w : list (list Q)) : result (list Q) :=
  Ok [inject_Z (Z.of_nat (length X_w))].

(** A sample counts as seizure-flagged when its indicator is truthy, the
    test [np.any] applies to every element. *)
Definition seizure_flag {num : Type} `{Dtype num} (v : num) : bool :=
  negb (eqb v (lit 0)).

(** ** Closed forms used in the statements *)

(** [psd[where(lb, ub), c]] when the mask fits the column. *)
Definition band_samples {num : Type} `{Dtype num}
           (freqs : list num) (band : num * num) (col : list num) : list num :=
  map snd (filter fst (combine (where_ freqs (fst band) (snd band)) col)).

(** The entry of the result for one band and one channel, from the
    integrated band power and the total power of the channel: their
    quotient, after the two assignments that replace the one by 0 and the
    other by -1 where the total power compares equal to 0. *)
Definition relpower_entry {num : Type} `{Dtype num}
           (band_power total_power : num) : num :=
  div (if eqb total_power (lit 0) then lit 0 else band_power)
      (if eqb total_power (lit 0) then lit (-1) else total_power).

(** The sum over the five bands of the entries of channel [c] in the
    ravelled result [r] for [channels] channels. *)
Definition band_sum (r : list Q) (channels c : nat) : Q :=
  fold_right Qplus 0%Q (map (fun b => nth (b * channels + c)%nat r 0%Q) (seq 0 5)).

(** ** Sample PSD estimates

    [welch] is library code; the two estimates below stand for its value
    on a window. Both use the frequencies 0, 1, ..., 128 Hz that [welch]
    returns at fs = 256 for segments of 256 samples. *)

(** A flat signal: after mean removal every periodogram is zero. Two
    channels, in float64. *)
Definition flat_window : list (list float) :=
  repeat [3%float; 3%float] 1024.

Definition flat_freqs : list float :=
  map (fun k => float_of_Z (Z.of_nat k)) (seq 0 129).

Definition flat_psd : list (list float) :=
  [repeat 0%float 129; repeat 0%float 129].

Definition flat_welch (_ : list (list float)) : list float * list (list float) :=
  (flat_freqs, flat_psd).

(** A 2 Hz tone under the Hann window: the power sits in the 2 Hz bin and
    leaks with a quarter of it into each neighbouring bin. One channel, in
    exact arithmetic, up to scale. *)
Definition tone_freqs : list Q :=
  map (fun k => inject_Z (Z.of_nat k)) (seq 0 129).

Definition tone_psd : list (list Q) :=
  [ [0; 1 # 4; 1; 1 # 4] ++ repeat 0 125 ]%Q.

Definition tone_welch (_ : list (list Q)) : list Q * list (list Q) :=
  (tone_freqs, tone_psd).

(** The same tone in float64. *)
Definition tone_welch_float64 (_ : list (list float))
  : list float * list (list float) :=
  (flat_freqs, [ [0; 0.25; 1; 0.25] ++ repeat 0 125 ]%float).

(** ** A sample dataset *)


(** ** Further definitions used in the statements *)

(** The character [c] occurs in [s]. *)
Fixpoint contains_char (c : ascii) (s : string) : bool :=
  match s with
  | EmptyString => false
  | String c' rest => Ascii.eqb c' c || contains_char c rest
  end.

(** Two recordings of a file, of the subjects chb01 and chb02. *)
Definition sample_nodes : list (node Q) :=
  [ mkNode "chb01_03" (recording 9 5 6 1);
    mkNode "chb02_16" (recording 7 0 0 0) ].

(** A row paired with its subject belongs to another subject than the
    held-out one. *)
Definition of_other_subject {A : Type} (test_subject_id : string)
           (p : A * string) : bool :=
  negb (String.eqb (snd p) test_subject_id).

(** The recording of [sample_node] with its last sample replaced. *)
Definition altered_last_sample (n : nat) : list (list Q) :=
  removelast (channels n) ++ [[99; 99]%Q].

(** A node with other channel data (two columns of zeros) and the
    indicator column of [sample_node]. *)
Definition zero_channel_node (n : nat) (lo hi : Z) (flag : Q) : node Q :=
  mkNode "chb05_01"
         (map (fun row => [0%Q; 0%Q; last row 0%Q]) (recording n lo hi flag)).

(** A node whose array has a row and no column. *)
Definition columnless_node : node Q := mkNode "chb01_03" [[]].

(** A PSD estimate with a single frequency. *)
Definition single_frequency_welch (_ : list (list Q))
  : list Q * list (list Q) :=
  ([0%Q], [[1%Q]]).

(** ** Float64 values that are not negative *)

(** [x >= 0] holds or [x] is NaN: the values that are not below zero. *)
Definition not_negative (x : float) : Prop :=
  PrimFloat.leb 0 x = true \/ PrimFloat.is_nan x = true.

(** The same on the specification of binary64: every value but minus
    infinity and the finite values with the sign bit set. *)
Definition sf_not_negative (s : spec_float) : Prop :=
  match s with
  | S754_infinity true | S754_finite true _ _ => False
  | _ => True
  end.

Definition sf_not_zero (s : spec_float) : Prop :=
  match s with
  | S754_zero _ => False
  | _ => True
  end.

(** The value of a call that did not raise. *)
Definition value_or {A : Type} (dflt : A) (r : result A) : A :=
  match r with
  | Ok a => a
  | Raise _ => dflt
  end.

(** The band's mask selects at least one frequency. *)
Definition band_selects {num : Type} `{Dtype num}
           (freqs : list num) (band : num * num) : bool :=
  existsb (fun selected => selected) (where_ freqs (fst band) (snd band)).

(** The float64 sum of the five entries of channel [c] in the ravelled
    result [r] for [channels] channels, added band after band. *)
Definition band_sum64 (r : list float) (channels c : nat) : float :=
  fold_left PrimFloat.add
            (map (fun b => nth (b * channels + c)%nat r 0%float) (seq 0 5))
            0%float.

(** ** Further sample PSD estimates *)

(** A window of the constant 0.1 (the binary64 value next to it). *)
Definition constant_window : list (list float) :=
  repeat [0x1.999999999999ap-4%float; 0x1.999999999999ap-4%float] 1024.

(** What mean removal leaves of a constant whose mean is not computed
    exactly: a constant residual. Under the Hann window its power sits at
    0 Hz and, with a quarter of it on either side, at 1 Hz; the one-sided
    estimate doubles every bin but the first. Two channels. *)
Definition residual_psd : list (list float) :=
  [ [0x1p-112; 0x1p-113] ++ repeat 0 127;
    [0x1p-112; 0x1p-113] ++ repeat 0 127 ]%float.

Definition residual_welch (_ : list (list float))
  : list float * list (list float) :=
  (flat_freqs, residual_psd).

(** A finite PSD so large that its integrals overflow. One channel. *)
Definition overflow_welch (_ : list (list float))
  : list float * list (list float) :=
  (flat_freqs, [repeat 0x1p1023%float 129]).

(** Three frequencies so far apart that the first band selects none. *)
Definition coarse_welch (_ : list (list float))
  : list float * list (list float) :=
  ([0; 64; 128]%float, [[0; 0; 0]%float]).

(** * Properties *)

(** ** The error monad and the loops *)

Lemma bind_ok_inv {A B : Type} (m : result A) (k : A -> result B) (b : B) :
  bind m k = Ok b -> exists a, m = Ok a /\ k a = Ok b.
Proof.
  destruct m as [a | e]; simpl; intros Hk.
  - exists a. split; [reflexivity | exact Hk].
  - discriminate Hk.
Qed.

(** ** [range] *)

Lemma range_len_empty (start stop step : Z) :
  0 < step -> stop <= start -> range_len start stop step = 0.
Proof.
  intros Hstep Hle. unfold range_len.
  assert ((stop - start - 1) / step < 0) by (apply Z.div_lt_upper_bound; lia).
  lia.
Qed.

Lemma range_len_step (start stop step : Z) :
  0 < step -> start < stop ->
  range_len start stop step = 1 + range_len (start + step) stop step.
Proof.
  intros Hstep Hlt. unfold range_len.
  replace (stop - (start + step) - 1) with (stop - start - 1 + (-1) * step) by lia.
  rewrite Z.div_add by lia.
  assert (0 <= (stop - start - 1) / step) by (apply Z.div_pos; lia).
  lia.
Qed.

Lemma range_len_nonneg (start stop step : Z) : 0 <= range_len start stop step.
Proof. unfold range_len. lia. Qed.

(** With enough fuel the ascending loop yields the arithmetic progression
    [start, start + step, ...] of [range_len] elements. *)
Lemma range_up_progression (fuel : nat) :
  forall ix stop step,
    0 < step -> stop - ix <= Z.of_nat fuel ->
    Py.range_up fuel ix stop step =
    map (fun k => ix + Z.of_nat k * step)
        (seq 0 (Z.to_nat (range_len ix stop step))).
Proof.
  induction fuel as [| fuel IH]; intros ix stop step Hstep Hfuel.
  - rewrite range_len_empty by lia. reflexivity.
  - simpl Py.range_up. destruct (ix <? stop) eqn:Hlt.
    + apply Z.ltb_lt in Hlt.
      rewrite range_len_step by lia.
      rewrite Z2Nat.inj_add by (try lia; apply range_len_nonneg).
      change (Z.to_nat 1) with 1%nat. simpl seq. simpl map.
      f_equal; [lia |].
      rewrite IH by lia.
      rewrite <- seq_shift, map_map.
      apply map_ext. intros k. lia.
    + apply Z.ltb_ge in Hlt. rewrite range_len_empty by lia. reflexivity.
Qed.

Lemma range_positive_step (start stop step : Z) :
  0 < step ->
  Py.range start stop step =
  Ok (map (fun k => start + Z.of_nat k * step)
          (seq 0 (Z.to_nat (range_len start stop step)))).
Proof.
  intros Hstep. unfold Py.range.
  destruct (step =? 0) eqn:E0; [apply Z.eqb_eq in E0; lia |].
  destruct (0 <? step) eqn:Epos; [| apply Z.ltb_ge in Epos; lia].
  f_equal. apply range_up_progression; lia.
Qed.

(** The [k]-th progression element is below [stop] exactly for
    [k < range_len]. *)
Lemma below_stop_iff (start stop step k : Z) :
  0 < step -> 0 <= k ->
  (k < range_len start stop step <-> start + k * step < stop).
Proof.
  intros Hstep Hk. unfold range_len. split; intros Hlt.
  - assert (k <= (stop - start - 1) / step) as Hle by lia.
    assert (step * k <= stop - start - 1); [| lia].
    etransitivity; [apply Z.mul_le_mono_nonneg_l; [lia | exact Hle] |].
    apply Z.mul_div_le. lia.
  - assert (k <= (stop - start - 1) / step); [| lia].
    apply Z.div_le_lower_bound; lia.
Qed.

Lemma in_range_positive_step (start stop step : Z) (l : list Z) (ix : Z) :
  0 < step -> Py.range start stop step = Ok l ->
  (In ix l <-> (exists k, 0 <= k /\ ix = start + k * step) /\ ix < stop).
Proof.
  intros Hstep Hr. rewrite range_positive_step in Hr by assumption.
  injection Hr as <-. rewrite in_map_iff. split.
  - intros (k & <- & Hin). apply in_seq in Hin. split.
    + exists (Z.of_nat k). split; [lia | reflexivity].
    + apply below_stop_iff; lia.
  - intros ((k & Hk & ->) & Hlt). exists (Z.to_nat k). split.
    + rewrite Z2Nat.id by assumption. reflexivity.
    + apply in_seq. apply below_stop_iff in Hlt; lia.
Qed.

(** When [stop >= start], [range_len] is the quotient rounded up. *)
Lemma range_len_cases (start stop step : Z) :
  0 < step ->
  range_len start stop step =
  if stop <? start then 0
  else if (stop - start) mod step =? 0
       then (stop - start) / step
       else (stop - start) / step + 1.
Proof.
  intros Hstep. destruct (stop <? start) eqn:Hlt.
  - apply Z.ltb_lt in Hlt. apply range_len_empty; lia.
  - apply Z.ltb_ge in Hlt. unfold range_len.
    pose proof (Z.div_mod (stop - start) step ltac:(lia)) as Hdm.
    pose proof (Z.mod_pos_bound (stop - start) step Hstep) as Hb.
    destruct ((stop - start) mod step =? 0) eqn:Hmod.
    + apply Z.eqb_eq in Hmod.
      assert ((stop - start) / step - 1 = (stop - start - 1) / step) as <-.
      { apply Z.div_unique with (r := step - 1); lia. }
      assert (0 <= (stop - start) / step) by (apply Z.div_pos; lia).
      lia.
    + apply Z.eqb_neq in Hmod.
      assert ((stop - start) / step = (stop - start - 1) / step) as <-.
      { apply Z.div_unique with (r := (stop - start) mod step - 1); lia. }
      assert (0 <= (stop - start) / step) by (apply Z.div_pos; lia).
      lia.
Qed.

(** The descending loop mirrors the ascending one, so [start - stop]
    iterations suffice for every step <= -1. *)
Lemma range_down_mirror (fuel : nat) :
  forall ix stop step,
    Py.range_down fuel ix stop step =
    map Z.opp (Py.range_up fuel (- ix) (- stop) (- step)).
Proof.
  induction fuel as [| fuel IH]; intros ix stop step; simpl; [reflexivity |].
  replace (- ix <? - stop) with (stop <? ix)
    by (destruct (stop <? ix) eqn:E1, (- ix <? - stop) eqn:E2;
        try reflexivity;
        rewrite ?Z.ltb_lt, ?Z.ltb_ge in E1, E2; lia).
  destruct (stop <? ix); [| reflexivity].
  simpl. rewrite Z.opp_involutive. f_equal.
  rewrite IH. f_equal. f_equal. lia.
Qed.

Lemma in_range_negative_step (start stop step : Z) (l : list Z) (ix : Z) :
  step < 0 -> Py.range start stop step = Ok l ->
  (In ix l <-> (exists k, 0 <= k /\ ix = start + k * step) /\ stop < ix).
Proof.
  intros Hstep Hr. unfold Py.range in Hr.
  destruct (step =? 0) eqn:E0; [apply Z.eqb_eq in E0; lia |].
  destruct (0 <? step) eqn:Epos; [apply Z.ltb_lt in Epos; lia |].
  injection Hr as <-. rewrite range_down_mirror.
  assert (Py.range (- start) (- stop) (- step) =
          Ok (Py.range_up (Z.to_nat (start - stop)) (- start) (- stop) (- step)))
    as Hup.
  { unfold Py.range.
    destruct (- step =? 0) eqn:E0'; [apply Z.eqb_eq in E0'; lia |].
    destruct (0 <? - step) eqn:Epos'; [| apply Z.ltb_ge in Epos'; lia].
    do 3 f_equal. lia. }
  rewrite in_map_iff. split.
  - intros (m & <- & Hin).
    apply (in_range_positive_step (- start) (- stop) (- step) _ m
             ltac:(lia) Hup) in Hin.
    destruct Hin as ((k & Hk & ->) & Hlt). split; [| lia].
    exists k. split; [exact Hk | lia].
  - intros ((k & Hk & ->) & Hlt). exists (- (start + k * step)).
    split; [lia |].
    apply (in_range_positive_step (- start) (- stop) (- step) _ _
             ltac:(lia) Hup).
    split; [| lia]. exists k. split; [exact Hk | lia].
Qed.

(** The count of the loop against the two counts of the specification:
    for [stop >= start] it is the inclusive count exactly when the step
    does not divide [stop - start], and the plain quotient exactly when it
    does. *)
Lemma range_len_inclusive_iff (window_size num_obs stride : Z) :
  0 < stride -> window_size <= num_obs ->
  (range_len window_size num_obs stride =
   spec_count_inclusive num_obs window_size stride <->
   (num_obs - window_size) mod stride <> 0).
Proof.
  intros Hs Hle. rewrite range_len_cases by assumption.
  unfold spec_count_inclusive.
  destruct (num_obs <? window_size) eqn:E; [apply Z.ltb_lt in E; lia |].
  assert (0 <= (num_obs - window_size) / stride) by (apply Z.div_pos; lia).
  destruct ((num_obs - window_size) mod stride =? 0) eqn:Em.
  - apply Z.eqb_eq in Em. lia.
  - apply Z.eqb_neq in Em. lia.
Qed.

Lemma range_len_invariant_iff (window_size num_obs stride : Z) :
  0 < stride -> window_size <= num_obs ->
  (range_len window_size num_obs stride =
   spec_count_invariant num_obs window_size stride <->
   (num_obs - window_size) mod stride = 0).
Proof.
  intros Hs Hle. rewrite range_len_cases by assumption.
  unfold spec_count_invariant.
  destruct (num_obs <? window_size) eqn:E; [apply Z.ltb_lt in E; lia |].
  destruct ((num_obs - window_size) mod stride =? 0) eqn:Em.
  - apply Z.eqb_eq in Em. lia.
  - apply Z.eqb_neq in Em. lia.
Qed.

(** ** Slices *)

Lemma slice_inside {A : Type} (l : list A) (lo hi : Z) :
  0 <= lo <= hi -> hi <= Z.of_nat (length l) ->
  Py.slice l lo hi = firstn (Z.to_nat (hi - lo)) (skipn (Z.to_nat lo) l).
Proof.
  intros Hlo Hhi. unfold Py.slice, Py.adjust_index.
  destruct (lo <? 0) eqn:E1; [apply Z.ltb_lt in E1; lia |].
  destruct (hi <? 0) eqn:E2; [apply Z.ltb_lt in E2; lia |].
  rewrite !Z.min_l by lia. reflexivity.
Qed.

Lemma slice_inside_length {A : Type} (l : list A) (lo hi : Z) :
  0 <= lo <= hi -> hi <= Z.of_nat (length l) ->
  length (Py.slice l lo hi) = Z.to_nat (hi - lo).
Proof.
  intros Hlo Hhi. rewrite slice_inside by assumption.
  rewrite length_firstn, length_skipn. lia.
Qed.

Lemma slice_inside_nth_error {A : Type} (l : list A) (lo hi : Z) (i : nat) :
  0 <= lo <= hi -> hi <= Z.of_nat (length l) ->
  (i < Z.to_nat (hi - lo))%nat ->
  nth_error (Py.slice l lo hi) i = nth_error l (Z.to_nat lo + i).
Proof.
  intros Hlo Hhi Hi. rewrite slice_inside by assumption.
  rewrite nth_error_firstn. apply Nat.ltb_lt in Hi. rewrite Hi.
  apply nth_error_skipn.
Qed.

Lemma slice_map {A B : Type} (f : A -> B) (l : list A) (lo hi : Z) :
  Py.slice (map f l) lo hi = map f (Py.slice l lo hi).
Proof.
  unfold Py.slice. rewrite length_map, skipn_map, firstn_map. reflexivity.
Qed.

Lemma in_slice {A : Type} (l : list A) (lo hi : Z) (x : A) :
  In x (Py.slice l lo hi) -> In x l.
Proof.
  unfold Py.slice. intros Hin.
  rewrite <- (firstn_skipn (Z.to_nat (Py.adjust_index (Z.of_nat (length l)) lo)) l).
  apply in_or_app. right.
  rewrite <- (firstn_skipn
                (Z.to_nat (Py.adjust_index (Z.of_nat (length l)) hi -
                           Py.adjust_index (Z.of_nat (length l)) lo))
                (skipn _ l)).
  apply in_or_app. left. exact Hin.
Qed.

(** ** Loops over the windows *)

Lemma map_result_length {A B : Type} (f : A -> result B) (l : list A) :
  forall bs, map_result f l = Ok bs -> length bs = length l.
Proof.
  induction l as [| a l IH]; simpl; intros bs Hbs.
  - injection Hbs as <-. reflexivity.
  - apply bind_ok_inv in Hbs as (b & _ & Hbs).
    apply bind_ok_inv in Hbs as (bs' & Hbs' & Hbs).
    injection Hbs as <-. simpl. f_equal. apply IH. exact Hbs'.
Qed.

Lemma map_result_total {A B : Type} (f : A -> result B) (l : list A) :
  (forall a, exists b, f a = Ok b) -> exists bs, map_result f l = Ok bs.
Proof.
  intros Hf. induction l as [| a l (bs & IH)]; simpl.
  - exists []. reflexivity.
  - destruct (Hf a) as (b & Hb). rewrite Hb, IH. simpl.
    exists (b :: bs). reflexivity.
Qed.

Lemma last_column_map {A : Type} (dflt : A) (a : list (list A)) :
  forall y, Np.last_column a = Ok y -> y = map (fun row => last row dflt) a.
Proof.
  induction a as [| row a IH]; simpl; intros y Hy.
  - injection Hy as <-. reflexivity.
  - destruct (rev row) as [| v r] eqn:Hrev; [discriminate Hy |].
    apply bind_ok_inv in Hy as (col & Hcol & Hy). injection Hy as <-.
    f_equal; [| apply IH; exact Hcol].
    rewrite <- (rev_involutive row), Hrev. simpl. symmetry. apply last_last.
Qed.

Lemma last_column_total {A : Type} (a : list (list A)) :
  Forall (fun row => row <> []) a -> exists y, Np.last_column a = Ok y.
Proof.
  induction 1 as [| row a Hrow _ (y & IH)]; simpl.
  - exists []. reflexivity.
  - destruct (rev row) as [| v r] eqn:Hrev.
    + exfalso. apply Hrow. rewrite <- (rev_involutive row), Hrev. reflexivity.
    + rewrite IH. simpl. exists (v :: y). reflexivity.
Qed.

Section WindowingFacts.
Context {num : Type} `{Dtype num}.
Variable feature_vector_of : list (list num) -> result (list num).
Variables window_size stride : Z.

(** The inner loop appends, for each start index in order, the feature
    vector of the window, its label and the subject. *)
Lemma for_each_window_body (sid : string) (X : list (list num))
      (y : list num) (starts : list Z) :
  forall (d : dataset num) (fs : list (list num)),
    map_result (fun ix => feature_vector_of (window_at window_size X ix))
               starts = Ok fs ->
    for_each (window_body feature_vector_of window_size sid X y) starts d =
    Ok (mkDataset
          (features d ++ fs)
          (labels d ++ map (fun ix => Np.any (window_at window_size y ix)) starts)
          (subjects d ++ map (fun _ => sid) starts)).
Proof.
  induction starts as [| ix starts IH]; simpl; intros d fs Hfs.
  - injection Hfs as <-. rewrite !app_nil_r. destruct d; reflexivity.
  - apply bind_ok_inv in Hfs as (f & Hf & Hfs).
    apply bind_ok_inv in Hfs as (fs' & Hfs' & Hfs). injection Hfs as <-.
    unfold window_body at 1. rewrite Hf. cbn [bind].
    rewrite (IH _ fs' Hfs'). cbn [features labels subjects].
    rewrite <- !app_assoc. reflexivity.
Qed.

(** One node, when the feature extractor succeeds on every window. *)
Lemma process_node_ok (d : dataset num) (nd : node num) :
  0 < stride ->
  (forall X_w, exists f, feature_vector_of X_w = Ok f) ->
  Forall (fun row => row <> []) (read nd) ->
  exists y starts fs,
    Np.last_column (read nd) = Ok y /\
    window_starts window_size stride (Z.of_nat (length (read nd))) = Ok starts /\
    map_result (fun ix => feature_vector_of
                            (window_at window_size
                                       (Np.drop_last_column (read nd)) ix))
               starts = Ok fs /\
    process_node feature_vector_of window_size stride d nd =
    Ok (mkDataset
          (features d ++ fs)
          (labels d ++ map (fun ix => Np.any (window_at window_size y ix)) starts)
          (subjects d ++ map (fun _ => subject_id_of (v_name nd)) starts)).
Proof.
  intros Hstride Hfeat Hrows.
  destruct (last_column_total _ Hrows) as (y & Hy).
  pose proof (range_positive_step window_size
                (Z.of_nat (length (read nd))) stride Hstride) as Hstarts.
  set (starts := map _ _) in Hstarts.
  destruct (map_result_total
              (fun ix => feature_vector_of
                           (window_at window_size
                                      (Np.drop_last_column (read nd)) ix))
              starts) as (fs & Hfs); [intros ix; apply Hfeat |].
  exists y, starts, fs. repeat split; try assumption.
  unfold process_node. rewrite Hy. cbn [bind].
  unfold Np.drop_last_column at 1. rewrite length_map.
  unfold window_starts in *. rewrite Hstarts. simpl.
  apply for_each_window_body. exact Hfs.
Qed.

End WindowingFacts.

(** ** The windower *)

Section Windower.
Context {num : Type} `{Dtype num}.
Variables window_size stride : Z.

Lemma window_starts_bounds (num_obs : Z) (starts : list Z) (ix : Z) :
  0 < stride ->
  window_starts window_size stride num_obs = Ok starts ->
  In ix starts -> window_size <= ix < num_obs.
Proof.
  intros Hstride Hstarts Hin.
  apply (in_range_positive_step _ _ _ _ ix Hstride Hstarts) in Hin.
  destruct Hin as ((k & Hk & ->) & Hlt). nia.
Qed.


(** C3 (amended): the windower checks no parameter. It raises exactly when
    stride = 0, and then the ValueError of [range]; for every other stride
    it returns a window sequence; for stride > 0 that sequence is empty
    exactly when num_obs <= window_size, which includes every
    window_size > num_obs. *)
Theorem windower_failure_cases (X : list (list num)) (y : list num) :
  let num_obs := Z.of_nat (length X) in
  (forall e, windows window_size stride X y = Raise e <->
             stride = 0 /\ e = ValueError) /\
  (stride <> 0 <-> exists ws, windows window_size stride X y = Ok ws) /\
  (0 < stride ->
   (windows window_size stride X y = Ok [] <-> num_obs <= window_size)).
Proof.
  intros num_obs. unfold windows, window_starts. fold num_obs.
  split; [| split].
  - intros e. unfold Py.range.
    destruct (stride =? 0) eqn:E0.
    + apply Z.eqb_eq in E0. simpl. split.
      * intros [= <-]. split; [exact E0 | reflexivity].
      * intros (_ & ->). reflexivity.
    + apply Z.eqb_neq in E0.
      destruct (0 <? stride); simpl; (split; [discriminate | intros (? & _); lia]).
  - unfold Py.range. destruct (stride =? 0) eqn:E0.
    + apply Z.eqb_eq in E0. simpl. split; [lia | intros (ws & Hws); discriminate].
    + apply Z.eqb_neq in E0. split; [| intros _; exact E0]. intros _.
      destruct (0 <? stride); simpl; eexists; reflexivity.
  - intros Hs. rewrite range_positive_step by assumption. simpl.
    pose proof (range_len_nonneg window_size num_obs stride) as Hnn.
    split.
    + intros [= Hnil]. apply map_eq_nil in Hnil. apply map_eq_nil in Hnil.
      apply (f_equal (@length nat)) in Hnil. rewrite length_seq in Hnil.
      simpl in Hnil.
      destruct (Z_lt_le_dec window_size num_obs) as [Hlt | Hle]; [| exact Hle].
      rewrite range_len_step in Hnil by assumption.
      pose proof (range_len_nonneg (window_size + stride) num_obs stride). lia.
    + intros Hle. rewrite range_len_empty by assumption. reflexivity.
Qed.

End Windower.

(** ** What one recording contributes to the dataset *)

Lemma any_is_or {num : Type} `{Dtype num} (v : list num) :
  Np.any v = fold_right orb false (map seizure_flag v).
Proof.
  unfold Np.any. induction v as [| x v IH]; simpl; [reflexivity |].
  rewrite IH. reflexivity.
Qed.

Lemma any_true_iff {num : Type} `{Dtype num} (v : list num) :
  Np.any v = true <-> exists x, In x v /\ eqb x (lit 0) = false.
Proof.
  unfold Np.any. rewrite existsb_exists.
  split; intros (x & Hin & Hx); exists x; (split; [exact Hin |]).
  - apply negb_true_iff. exact Hx.
  - apply negb_true_iff. exact Hx.
Qed.

Section Contribution.
Context {num : Type} `{Dtype num}.
Variable feature_vector_of : list (list num) -> result (list num).
Variables window_size stride : Z.

(** C2 (amended): a recording of num_obs samples adds the same number of
    entries to the features, to the labels and to the subjects; for
    num_obs >= window_size that number is floor((num_obs -
    window_size)/stride) when stride divides num_obs - window_size and
    floor((num_obs - window_size)/stride) + 1 when it does not; for
    num_obs < window_size it is 0. *)
Theorem recording_contribution (d : dataset num) (nd : node num) :
  0 < stride ->
  (forall X_w, exists f, feature_vector_of X_w = Ok f) ->
  Forall (fun row => row <> []) (read nd) ->
  let num_obs := Z.of_nat (length (read nd)) in
  let count :=
    if num_obs <? window_size then 0
    else if (num_obs - window_size) mod stride =? 0
         then (num_obs - window_size) / stride
         else (num_obs - window_size) / stride + 1 in
  exists d',
    process_node feature_vector_of window_size stride d nd = Ok d' /\
    length (features d') = (length (features d) + Z.to_nat count)%nat /\
    length (labels d') = (length (labels d) + Z.to_nat count)%nat /\
    length (subjects d') = (length (subjects d) + Z.to_nat count)%nat.
Proof.
  intros Hs Hfeat Hrows num_obs count.
  destruct (process_node_ok feature_vector_of window_size stride d nd
              Hs Hfeat Hrows) as (y & starts & fs & _ & Hstarts & Hfs & Hd').
  eexists. split; [exact Hd' |]. simpl.
  assert (length starts = Z.to_nat count) as Hlen.
  { unfold window_starts in Hstarts.
    rewrite range_positive_step in Hstarts by assumption.
    injection Hstarts as <-. rewrite length_map, length_seq.
    rewrite range_len_cases by assumption. reflexivity. }
  apply map_result_length in Hfs.
  rewrite !length_app, !length_map, Hfs, Hlen. auto.
Qed.

(** C6: the label of every window is the OR of the seizure flags of its
    samples: true when at least one sample of the window is flagged, false
    when none is. The aggregation itself is a total function; the labels
    enter the dataset in window order. *)
Theorem window_label_is_or (d : dataset num) (nd : node num) :
  0 < stride ->
  (forall X_w, exists f, feature_vector_of X_w = Ok f) ->
  Forall (fun row => row <> []) (read nd) ->
  exists y starts d',
    Np.last_column (read nd) = Ok y /\
    window_starts window_size stride (Z.of_nat (length (read nd))) = Ok starts /\
    process_node feature_vector_of window_size stride d nd = Ok d' /\
    labels d' =
    labels d ++
    map (fun ix => fold_right orb false
                     (map seizure_flag (window_at window_size y ix))) starts /\
    forall ix,
      let label :=
        fold_right orb false (map seizure_flag (window_at window_size y ix)) in
      (label = true <->
       exists v, In v (window_at window_size y ix) /\ seizure_flag v = true) /\
      (label = false <->
       forall v, In v (window_at window_size y ix) -> seizure_flag v = false).
Proof.
  intros Hs Hfeat Hrows.
  destruct (process_node_ok feature_vector_of window_size stride d nd
              Hs Hfeat Hrows) as (y & starts & fs & Hy & Hstarts & _ & Hd').
  exists y, starts. eexists. repeat split; try eassumption.
  - simpl. f_equal. apply map_ext. intros ix. apply any_is_or.
  - rewrite <- any_is_or. unfold Np.any. rewrite existsb_exists. auto.
  - rewrite <- any_is_or. unfold Np.any. rewrite existsb_exists. auto.
  - rewrite <- any_is_or. intros Hnone v Hin.
    destruct (seizure_flag v) eqn:Hv; [| reflexivity].
    rewrite <- Hnone. symmetry. apply any_true_iff. exists v.
    split; [exact Hin | apply negb_true_iff; exact Hv].
  - rewrite <- any_is_or. intros Hall.
    destruct (Np.any (window_at window_size y ix)) eqn:Hany; [| reflexivity].
    apply any_true_iff in Hany as (v & Hin & Hv).
    specialize (Hall v Hin). unfold seizure_flag in Hall.
    rewrite Hv in Hall. discriminate Hall.
Qed.

End Contribution.

(** ** Band relative power *)

Lemma map_result_map {A B : Type} (f : A -> result B) (g : A -> B)
      (l : list A) :
  (forall a, In a l -> f a = Ok (g a)) -> map_result f l = Ok (map g l).
Proof.
  induction l as [| a l IH]; simpl; intros Hf; [reflexivity |].
  rewrite (Hf a) by (left; reflexivity). simpl.
  rewrite IH by (intros a' Ha'; apply Hf; right; exact Ha'). reflexivity.
Qed.

Lemma map_combine_map {A B C D : Type} (g : A -> B) (h : A -> C)
      (f : B * C -> D) (l : list A) :
  map f (combine (map g l) (map h l)) = map (fun a => f (g a, h a)) l.
Proof.
  induction l as [| a l IH]; simpl; [reflexivity |]. rewrite IH. reflexivity.
Qed.

(** Position [b * n + c] of the concatenation of rows of length [n]. *)
Lemma nth_error_concat_rows {A : Type} (n : nat) (rows : list (list A)) :
  Forall (fun row => length row = n) rows ->
  forall b c row,
    nth_error rows b = Some row -> (c < n)%nat ->
    nth_error (concat rows) (b * n + c) = nth_error row c.
Proof.
  induction 1 as [| r rows Hr _ IH]; intros b c row Hb Hc.
  - destruct b; discriminate Hb.
  - destruct b as [| b]; simpl in Hb |- *.
    + injection Hb as ->. apply nth_error_app1. lia.
    + rewrite nth_error_app2 by lia.
      replace (n + b * n + c - length r)%nat with (b * n + c)%nat by lia.
      apply IH; assumption.
Qed.


Lemma map_result_raises {A B : Type} (f : A -> result B) (e : exn)
      (l : list A) :
  (forall a e', f a = Raise e' -> e' = e) ->
  Exists (fun a => f a = Raise e) l -> map_result f l = Raise e.
Proof.
  intros Honly. induction l as [| a l IH]; intros Hex; [inversion Hex |].
  simpl. destruct (f a) as [b | e'] eqn:Hfa.
  - cbn [bind]. rewrite IH; [reflexivity |].
    inversion Hex as [? ? Ha | ? ? Hrest]; subst; [| exact Hrest].
    rewrite Hfa in Ha. discriminate Ha.
  - rewrite (Honly a e' Hfa). reflexivity.
Qed.

Lemma map_result_of_map {A B C : Type} (g : A -> B) (f : B -> result C)
      (l : list A) :
  map_result f (map g l) = map_result (fun a => f (g a)) l.
Proof.
  induction l as [| a l IH]; simpl; [reflexivity |]. rewrite IH. reflexivity.
Qed.

Section BandPowerFacts.
Context {num : Type} `{Dtype num}.
Variable welch : list (list num) -> list num * list (list num).
Variable simps : list num -> num -> result num.

(** The rows a band mask selects in every column, when the mask fits. *)
Lemma band_selection_ok (freqs : list num) (psd : list (list num))
      (band : num * num) :
  Forall (fun col => length col = length freqs) psd ->
  map_result (fun col => Np.mask_select col
                           (where_ freqs (fst band) (snd band))) psd =
  Ok (map (band_samples freqs band) psd).
Proof.
  intros Hpsd. apply map_result_map. intros col Hcol.
  rewrite Forall_forall in Hpsd. specialize (Hpsd col Hcol).
  unfold Np.mask_select, where_. rewrite length_map, Hpsd, Nat.eqb_refl.
  reflexivity.
Qed.

Lemma band_power_ok (freqs : list num) (psd : list (list num))
      (fr_res : num) (band : num * num) (value : list num -> num) :
  Forall (fun col => length col = length freqs) psd ->
  (forall col, In col psd ->
               simps (band_samples freqs band col) fr_res =
               Ok (value (band_samples freqs band col))) ->
  band_power simps freqs psd fr_res band =
  Ok (map (fun col => value (band_samples freqs band col)) psd).
Proof.
  intros Hpsd Hval. destruct band as (lb, ub). unfold band_power.
  pose proof (band_selection_ok freqs psd (lb, ub) Hpsd) as Hselect.
  cbn [fst snd] in Hselect. rewrite Hselect. cbn [bind].
  rewrite map_result_of_map. apply map_result_map. exact Hval.
Qed.

(** A mask that does not fit a column is an IndexError, raised before
    anything is integrated. *)
Lemma band_power_mask_misfit (freqs : list num) (psd : list (list num))
      (fr_res : num) (band : num * num) :
  Exists (fun col => length col <> length freqs) psd ->
  band_power simps freqs psd fr_res band = Raise IndexError.
Proof.
  intros Hcol. destruct band as (lb, ub). unfold band_power.
  rewrite (map_result_raises _ IndexError); [reflexivity | |].
  - intros col e. unfold Np.mask_select.
    destruct (Nat.eqb _ _); [discriminate |]. intros [= <-]. reflexivity.
  - apply Exists_exists in Hcol as (col & Hin & Hlen).
    apply Exists_exists. exists col. split; [exact Hin |].
    unfold Np.mask_select, where_. rewrite length_map.
    destruct (Nat.eqb (length freqs) (length col)) eqn:E;
      [apply Nat.eqb_eq in E; congruence | reflexivity].
Qed.

(** The ravelled result holds, at position [b * channels + c], the entry
    of band [b] and channel [c], whenever [welch] returns at least two
    frequencies and PSD columns as long as the frequency list, and every
    integration succeeds. *)
Lemma compute_band_relpower_entries (X : list (list num)) (freqs : list num)
      (psd : list (list num)) (f0 f1 : num) (tail : list num) :
  welch X = (freqs, psd) ->
  freqs = f0 :: f1 :: tail ->
  Forall (fun col => length col = length freqs) psd ->
  (forall band col, In band bands -> In col psd ->
                    exists a, simps (band_samples freqs band col) (sub f1 f0)
                              = Ok a) ->
  (forall col, In col psd -> exists t, simps col (sub f1 f0) = Ok t) ->
  exists r totals,
    compute_band_relpower welch simps X = Ok r /\
    length r = (5 * length psd)%nat /\
    map_result (fun col => simps col (sub f1 f0)) psd = Ok totals /\
    forall b band c col a t,
      nth_error bands b = Some band -> nth_error psd c = Some col ->
      simps (band_samples freqs band col) (sub f1 f0) = Ok a ->
      simps col (sub f1 f0) = Ok t ->
      nth_error r (b * length psd + c) = Some (relpower_entry a t).
Proof.
  intros Hwelch Hfreqs Hpsd Hsel Htot.
  set (fr_res := sub f1 f0) in *.
  set (value := fun v => value_or (lit 0) (simps v fr_res)).
  assert (forall band col, In band bands -> In col psd ->
                           simps (band_samples freqs band col) fr_res =
                           Ok (value (band_samples freqs band col))) as Hsel'.
  { intros band col Hb Hc. destruct (Hsel band col Hb Hc) as (a & Ha).
    unfold value. rewrite Ha. reflexivity. }
  assert (forall col, In col psd -> simps col fr_res = Ok (value col))
    as Htot'.
  { intros col Hc. destruct (Htot col Hc) as (t & Ht).
    unfold value. rewrite Ht. reflexivity. }
  set (rows := map (fun band =>
                      map (fun col =>
                             relpower_entry
                               (value (band_samples freqs band col))
                               (value col)) psd) bands).
  assert (band_relpower_rows welch simps X = Ok rows) as Hrows.
  { unfold band_relpower_rows. rewrite Hwelch.
    assert (Py.index freqs 1 = Ok f1) as -> by (rewrite Hfreqs; reflexivity).
    cbn [bind].
    assert (Py.index freqs 0 = Ok f0) as -> by (rewrite Hfreqs; reflexivity).
    cbn [bind]. fold fr_res.
    rewrite (map_result_map _
               (fun band => map (fun col => value (band_samples freqs band col))
                                psd))
      by (intros band Hb; apply band_power_ok;
          [exact Hpsd | intros col Hc; apply Hsel'; assumption]).
    cbn [bind].
    rewrite (map_result_map _ value) by exact Htot'. cbn [bind]. f_equal.
    unfold rows, divide_rows, zero_where_no_power, minus_one_where_no_power.
    rewrite !map_map. apply map_ext. intros band.
    rewrite !map_combine_map. apply map_ext. intros col. reflexivity. }
  exists (concat rows), (map value psd).
  split; [unfold compute_band_relpower; rewrite Hrows; reflexivity |].
  assert (Forall (fun row => length row = length psd) rows) as Hlen.
  { apply Forall_forall. intros row Hin. unfold rows in Hin.
    apply in_map_iff in Hin as (band & <- & _). apply length_map. }
  split.
  { unfold rows, bands. simpl. rewrite !length_app, !length_map. simpl. lia. }
  split; [apply map_result_map; exact Htot' |].
  intros b band c col a t Hb Hc Ha Ht.
  assert (c < length psd)%nat as Hlt
      by (apply nth_error_Some; rewrite Hc; discriminate).
  rewrite (nth_error_concat_rows (length psd) rows Hlen b c
             (map (fun col => relpower_entry
                                (value (band_samples freqs band col))
                                (value col)) psd)).
  - rewrite nth_error_map, Hc. cbn [option_map]. unfold value at 1 2.
    rewrite Ha, Ht. reflexivity.
  - unfold rows. rewrite nth_error_map, Hb. reflexivity.
  - exact Hlt.
Qed.

(** [compute_band_relpower] raises IndexError when [welch] returns fewer
    than two frequencies (there is no frequency resolution), and when a
    PSD column is not as long as the frequency list (the band mask does
    not fit it). *)
Theorem compute_band_relpower_index_errors (X : list (list num))
        (freqs : list num) (psd : list (list num)) :
  welch X = (freqs, psd) ->
  (length freqs < 2)%nat \/
  Exists (fun col => length col <> length freqs) psd ->
  compute_band_relpower welch simps X = Raise IndexError.
Proof.
  intros Hwelch Hbad. unfold compute_band_relpower, band_relpower_rows.
  rewrite Hwelch.
  destruct freqs as [| f0 [| f1 tail]]; try reflexivity.
  destruct Hbad as [Hshort | Hcol]; [simpl in Hshort; lia |].
  cbn [Py.index nth_error bind].
  rewrite (map_result_raises _ IndexError); [reflexivity | |].
  - intros band e Hraise.
    rewrite (band_power_mask_misfit _ _ _ _ Hcol) in Hraise.
    injection Hraise as <-. reflexivity.
  - unfold bands. constructor. apply band_power_mask_misfit. exact Hcol.
Qed.

End BandPowerFacts.

(** *** The zero-power guard in float64 *)

(** C4 (amended): in float64, whenever [compute_band_relpower] gets at
    least two frequencies and PSD columns as long as the frequency list
    and every integration succeeds, it returns, and for every channel
    whose total power compares equal to zero the result holds -0.0 for
    each of the five bands of that channel: a value that compares equal to
    0 and is not a NaN. No divisor of the final division is zero. *)
Theorem zero_power_guard
        (welch : list (list float) -> list float * list (list float))
        (simps : list float -> float -> result float)
        (X : list (list float)) (freqs : list float)
        (psd : list (list float)) (f0 f1 : float) (tail : list float)
        (c : nat) (col : list float) (total : float) :
  welch X = (freqs, psd) ->
  freqs = f0 :: f1 :: tail ->
  Forall (fun col => length col = length freqs) psd ->
  (forall band col, In band bands -> In col psd ->
                    exists a, simps (band_samples freqs band col)
                                    (PrimFloat.sub f1 f0) = Ok a) ->
  (forall col, In col psd ->
               exists t, simps col (PrimFloat.sub f1 f0) = Ok t) ->
  nth_error psd c = Some col ->
  simps col (PrimFloat.sub f1 f0) = Ok total ->
  PrimFloat.eqb total 0%float = true ->
  exists r totals,
    compute_band_relpower welch simps X = Ok r /\
    length r = (5 * length psd)%nat /\
    (forall b, (b < 5)%nat ->
               exists v,
                 nth_error r (b * length psd + c) = Some v /\
                 v = (-0)%float /\
                 PrimFloat.eqb v 0%float = true /\
                 PrimFloat.is_nan v = false) /\
    map_result (fun col => simps col (PrimFloat.sub f1 f0)) psd = Ok totals /\
    Forall (fun t => PrimFloat.eqb t 0%float = false)
           (minus_one_where_no_power totals).
Proof.
  intros Hwelch Hfreqs Hpsd Hsel Htot Hcol Htotal Hzero.
  destruct (compute_band_relpower_entries welch simps X freqs psd f0 f1 tail
              Hwelch Hfreqs Hpsd Hsel Htot)
    as (r & totals & Hr & Hlen & Htotals & Hentries).
  exists r, totals. split; [exact Hr |]. split; [exact Hlen |]. split.
  - intros b Hb.
    assert (exists band, nth_error (bands (num := float)) b = Some band)
      as (band & Hband).
    { do 5 (destruct b as [| b]; [eexists; reflexivity |]). lia. }
    destruct (Hsel band col) as (a & Ha).
    { apply nth_error_In with (n := b). exact Hband. }
    { apply nth_error_In with (n := c). exact Hcol. }
    exists (-0)%float. split; [| repeat split].
    rewrite (Hentries b band c col a total Hband Hcol Ha Htotal). f_equal.
    unfold relpower_entry.
    change (@eqb float float_dtype) with PrimFloat.eqb.
    change (@lit float float_dtype 0) with 0%float.
    rewrite Hzero. reflexivity.
  - split; [exact Htotals |].
    unfold minus_one_where_no_power.
    apply Forall_forall. intros t Hin.
    apply in_map_iff in Hin as (t' & <- & _).
    change (@eqb float float_dtype) with PrimFloat.eqb.
    change (@lit float float_dtype 0) with 0%float.
    destruct (PrimFloat.eqb t' 0%float) eqn:E; [reflexivity | exact E].
Qed.

(** *** The modelled Simpson rule *)

Lemma simps_ok {num : Type} `{Dtype num} (y : list num) (dx : num) :
  y <> [] -> exists v, simps y dx = Ok v.
Proof.
  intros Hy. unfold simps. destruct y as [| y0 tail]; [contradiction |].
  destruct (Nat.even (length (y0 :: tail))); eexists; reflexivity.
Qed.

(** A mask that selects a frequency selects a sample of every column it
    fits. *)
Lemma selection_nonempty {A : Type} (mask : list bool) :
  forall col : list A,
    length col = length mask ->
    existsb (fun selected => selected) mask = true ->
    map snd (filter fst (combine mask col)) <> [].
Proof.
  induction mask as [| m mask IH]; intros col Hlen Hsel; [discriminate Hsel |].
  destruct col as [| x col]; [discriminate Hlen |]. injection Hlen as Hlen.
  simpl in Hsel |- *. destruct m; simpl; [discriminate |].
  apply IH; assumption.
Qed.

Lemma band_samples_nonempty {num : Type} `{Dtype num}
      (freqs : list num) (band : num * num) (col : list num) :
  length col = length freqs -> band_selects freqs band = true ->
  band_samples freqs band col <> [].
Proof.
  intros Hlen Hsel. unfold band_samples. apply selection_nonempty.
  - unfold where_. rewrite length_map. exact Hlen.
  - exact Hsel.
Qed.

Lemma band_samples_Forall {num : Type} `{Dtype num} (P : num -> Prop)
      (freqs : list num) (band : num * num) (col : list num) :
  Forall P col -> Forall P (band_samples freqs band col).
Proof.
  intros Hcol. apply Forall_forall. intros p Hin.
  unfold band_samples in Hin.
  apply in_map_iff in Hin as ((m, q) & <- & Hin).
  apply filter_In in Hin as (Hin & _). apply in_combine_r in Hin.
  rewrite Forall_forall in Hcol. apply Hcol. exact Hin.
Qed.

Lemma Forall_removelast {A : Type} (P : A -> Prop) (l : list A) :
  Forall P l -> Forall P (removelast l).
Proof.
  induction 1 as [| a l Ha Hl IH]; simpl; [constructor |].
  destruct l; [constructor | constructor; assumption].
Qed.

(** With the modelled rule every integration of [compute_band_relpower]
    succeeds as soon as every band selects a frequency. *)
Lemma simps_succeeds_on_bands {num : Type} `{Dtype num}
      (freqs : list num) (psd : list (list num)) (f0 f1 : num)
      (tail : list num) (dx : num) :
  freqs = f0 :: f1 :: tail ->
  Forall (fun col => length col = length freqs) psd ->
  Forall (fun band => band_selects freqs band = true) bands ->
  (forall band col, In band bands -> In col psd ->
                    exists a, simps (band_samples freqs band col) dx = Ok a) /\
  (forall col, In col psd -> exists t, simps col dx = Ok t).
Proof.
  intros Hfreqs Hpsd Hbands. rewrite Forall_forall in Hpsd, Hbands. split.
  - intros band col Hb Hc. apply simps_ok, band_samples_nonempty.
    + apply Hpsd. exact Hc.
    + apply Hbands. exact Hb.
  - intros col Hc. apply simps_ok. specialize (Hpsd col Hc).
    rewrite Hfreqs in Hpsd. destruct col; [discriminate Hpsd | discriminate].
Qed.

(** *** Signs in float64 *)

Lemma not_negative_spec (x : float) :
  not_negative x <-> sf_not_negative (Prim2SF x).
Proof.
  unfold not_negative, PrimFloat.is_nan.
  rewrite FloatAxioms.leb_spec, FloatAxioms.eqb_spec.
  change (Prim2SF 0) with (S754_zero false).
  destruct (Prim2SF x) as [s | s | | s m e]; simpl.
  - tauto.
  - destruct s; simpl; intuition discriminate.
  - tauto.
  - unfold SFleb, SFeqb. simpl. destruct s; simpl.
    + rewrite Z.compare_refl, Pos.compare_cont_refl. simpl.
      intuition discriminate.
    + tauto.
Qed.

(** Rounding keeps the sign it is given. *)
Lemma binary_round_aux_sign (sx : bool) (m e : Z) (l : location) :
  match binary_round_aux prec emax sx m e l with
  | S754_zero s | S754_infinity s | S754_finite s _ _ => s = sx
  | S754_nan => True
  end.
Proof.
  unfold binary_round_aux.
  destruct (shr_fexp prec emax m e l) as [mrs' e'].
  destruct (shr_fexp prec emax _ e' loc_Exact) as [mrs'' e''].
  destruct (shr_m mrs''); [reflexivity | | exact I].
  destruct (Z.leb e'' (Z.sub emax prec)); reflexivity.
Qed.

Lemma binary_round_aux_not_negative (m e : Z) (l : location) :
  sf_not_negative (binary_round_aux prec emax false m e l).
Proof.
  pose proof (binary_round_aux_sign false m e l) as Hs.
  destruct (binary_round_aux prec emax false m e l) as [s | s | | s ? ?];
    try exact I; subst s; exact I.
Qed.

Lemma sf_add_not_negative (a b : spec_float) :
  sf_not_negative a -> sf_not_negative b -> sf_not_negative (SF64add a b).
Proof.
  destruct a as [sa | sa | | sa ma ea], b as [sb | sb | | sb mb eb];
    try destruct sa; try destruct sb; simpl; try tauto.
  intros _ _. unfold SF64add, SFadd.
  destruct (shl_align ma ea (Z.min ea eb)) as [ma' ea'].
  destruct (shl_align mb eb (Z.min ea eb)) as [mb' eb'].
  simpl. unfold binary_round.
  destruct (shl_align _ _ _) as [mz ez].
  apply binary_round_aux_not_negative.
Qed.

Lemma sf_mul_not_negative (a b : spec_float) :
  sf_not_negative a -> sf_not_negative b -> sf_not_negative (SF64mul a b).
Proof.
  destruct a as [sa | sa | | sa ma ea], b as [sb | sb | | sb mb eb];
    try destruct sa; try destruct sb; simpl; try tauto.
  intros _ _. apply binary_round_aux_not_negative.
Qed.

Lemma sf_div_not_negative (a b : spec_float) :
  sf_not_negative a -> sf_not_negative b -> sf_not_zero b ->
  sf_not_negative (SF64div a b).
Proof.
  destruct a as [sa | sa | | sa ma ea], b as [sb | sb | | sb mb eb];
    try destruct sa; try destruct sb; simpl; try tauto.
  intros _ _ _. unfold SF64div, SFdiv.
  destruct (SFdiv_core_binary prec emax (Zpos ma) ea (Zpos mb) eb)
    as [[mz ez] lz].
  apply binary_round_aux_not_negative.
Qed.

Lemma not_negative_add (x y : float) :
  not_negative x -> not_negative y -> not_negative (x + y).
Proof.
  rewrite !not_negative_spec, FloatAxioms.add_spec.
  apply sf_add_not_negative.
Qed.

Lemma not_negative_mul (x y : float) :
  not_negative x -> not_negative y -> not_negative (x * y).
Proof.
  rewrite !not_negative_spec, FloatAxioms.mul_spec.
  apply sf_mul_not_negative.
Qed.

Lemma not_negative_div (x y : float) :
  not_negative x -> not_negative y -> PrimFloat.eqb y 0 = false ->
  not_negative (x / y).
Proof.
  rewrite !not_negative_spec, FloatAxioms.div_spec, FloatAxioms.eqb_spec.
  change (Prim2SF 0) with (S754_zero false).
  intros Hx Hy Hz. apply sf_div_not_negative; try assumption.
  destruct (Prim2SF y); try exact I. discriminate Hz.
Qed.

Lemma not_negative_of_leb (x : float) :
  PrimFloat.leb 0 x = true -> not_negative x.
Proof. intros Hx. left. exact Hx. Qed.

Lemma Forall_not_negative_of_leb (l : list float) :
  forallb (PrimFloat.leb 0) l = true -> Forall not_negative l.
Proof.
  intros Hl. apply Forall_forall. intros x Hin. left.
  rewrite forallb_forall in Hl. apply Hl. exact Hin.
Qed.

(** *** The modelled Simpson rule does not turn negative in float64 *)

Lemma basic_simps_not_negative (dx : float) (n : nat) :
  not_negative dx ->
  forall y : list float,
    (length y <= n)%nat -> Forall not_negative y ->
    not_negative (basic_simps y dx).
Proof.
  intros Hdx. induction n as [| n IH]; intros y Hlen Hy.
  - destruct y; [left; reflexivity | simpl in Hlen; lia].
  - destruct y as [| y0 [| y1 [| y2 rest]]]; try (left; reflexivity).
    inversion Hy as [| ? ? H0 Hy1]; subst.
    inversion Hy1 as [| ? ? H1 Hy2]; subst.
    inversion Hy2 as [| ? ? H2 _]; subst.
    assert (not_negative (basic_simps (y2 :: rest) dx)) as Hrest
        by (apply IH; [simpl in Hlen |- *; lia | exact Hy2]).
    change (not_negative
              (dx / 3 * (y0 + 4 * y1 + y2) + basic_simps (y2 :: rest) dx)).
    apply not_negative_add; [| exact Hrest].
    apply not_negative_mul.
    + apply not_negative_div; [exact Hdx | left | ]; reflexivity.
    + repeat apply not_negative_add; try assumption.
      apply not_negative_mul; [left; reflexivity | assumption].
Qed.

Lemma trapezoid_first_not_negative (dx : float) (y : list float) :
  not_negative dx -> Forall not_negative y ->
  not_negative (trapezoid_first y dx).
Proof.
  intros Hdx Hy. destruct y as [| y0 [| y1 rest]]; try (left; reflexivity).
  inversion Hy as [| ? ? H0 Hy1]; subst.
  inversion Hy1 as [| ? ? H1 _]; subst.
  change (not_negative (0.5 * dx * (y1 + y0))).
  apply not_negative_mul; [apply not_negative_mul |].
  - left. reflexivity.
  - exact Hdx.
  - apply not_negative_add; assumption.
Qed.

Lemma trapezoid_last_not_negative (dx : float) (y : list float) :
  not_negative dx -> Forall not_negative y ->
  not_negative (trapezoid_last y dx).
Proof.
  intros Hdx Hy. apply Forall_rev in Hy. unfold trapezoid_last.
  destruct (rev y) as [| yl [| yl' rest]]; try (left; reflexivity).
  inversion Hy as [| ? ? H0 Hy1]; subst.
  inversion Hy1 as [| ? ? H1 _]; subst.
  change (not_negative (0.5 * dx * (yl + yl'))).
  apply not_negative_mul; [apply not_negative_mul |].
  - left. reflexivity.
  - exact Hdx.
  - apply not_negative_add; assumption.
Qed.

Lemma simps_not_negative (dx : float) (y : list float) (v : float) :
  not_negative dx -> Forall not_negative y ->
  simps y dx = Ok v -> not_negative v.
Proof.
  intros Hdx Hy. unfold simps. destruct y as [| y0 tail]; [discriminate |].
  destruct (Nat.even (length (y0 :: tail))); intros [= <-].
  - pose proof (trapezoid_last_not_negative dx (y0 :: tail) Hdx Hy) as Hl.
    pose proof (trapezoid_first_not_negative dx (y0 :: tail) Hdx Hy) as Hf.
    pose proof (basic_simps_not_negative dx _ Hdx (removelast (y0 :: tail))
                  (le_n _) (Forall_removelast _ _ Hy)) as Hb1.
    pose proof (basic_simps_not_negative dx _ Hdx tail (le_n _)
                  (Forall_inv_tail Hy)) as Hb2.
    set (tl_ := trapezoid_last (y0 :: tail) dx) in *.
    set (tf := trapezoid_first (y0 :: tail) dx) in *.
    set (b1 := basic_simps (removelast (y0 :: tail)) dx) in *.
    set (b2 := basic_simps tail dx) in *.
    change (not_negative ((b1 + b2) / 2 + (tl_ + tf) / 2)).
    apply not_negative_add; apply not_negative_div;
      try (apply not_negative_add; assumption);
      try (left; reflexivity); reflexivity.
  - apply (basic_simps_not_negative dx _ Hdx _ (le_n _) Hy).
Qed.

Lemma relpower_entry_not_negative (a t : float) :
  not_negative a -> not_negative t -> not_negative (relpower_entry a t).
Proof.
  intros Ha Ht. unfold relpower_entry.
  change (@eqb float float_dtype) with PrimFloat.eqb.
  change (@div float float_dtype) with PrimFloat.div.
  change (@lit float float_dtype 0) with 0%float.
  change (@lit float float_dtype (-1)) with (-1)%float.
  destruct (PrimFloat.eqb t 0) eqn:E.
  - left. reflexivity.
  - apply not_negative_div; assumption.
Qed.

(** The band relative powers of the 2 Hz tone: the band from 0.5 to 4 Hz
    integrates the bins 1, 2 and 3 with the weights 1/3, 4/3, 1/3, while
    the total power gives the same bins the weights 4/3, 2/3, 4/3. *)
Lemma tone_band_sum_exceeds_one :
  exists r,
    compute_band_relpower tone_welch simps [] = Ok r /\
    (band_sum r 1 0 == 9 # 8)%Q /\
    ~ (band_sum r 1 0 <= 1)%Q.
Proof.
  eexists. split; [vm_compute; reflexivity |].
  split; [vm_compute; reflexivity |].
  vm_compute. intros Hle. apply Hle. reflexivity.
Qed.

(** In float64 the same PSD gives a relative power above 1 in the first
    band as well. *)
Lemma tone_band_power_above_one_float64 :
  exists r v,
    compute_band_relpower tone_welch_float64 simps [] = Ok r /\
    nth_error r 0 = Some v /\
    PrimFloat.ltb 1 v = true.
Proof.
  eexists. eexists. split; [vm_compute; reflexivity |].
  split; [reflexivity | vm_compute; reflexivity].
Qed.

(** C5 (amended): in float64 and on a PSD without negative entries, when
    every band selects a frequency, [compute_band_relpower] returns five
    entries per channel, none of them negative: each is at least 0 or is a
    NaN, and so is their float64 sum. The sum is not bounded by 1 (a band
    integrates its samples with other Simpson weights than the total
    power gives them), and it is a NaN when the integrals overflow. *)
Theorem band_relpower_never_negative
        (welch : list (list float) -> list float * list (list float))
        (X : list (list float)) (freqs : list float)
        (psd : list (list float)) (f0 f1 : float) (tail : list float) :
  welch X = (freqs, psd) ->
  freqs = f0 :: f1 :: tail ->
  not_negative (PrimFloat.sub f1 f0) ->
  Forall (fun col => length col = length freqs) psd ->
  Forall (Forall not_negative) psd ->
  Forall (fun band => band_selects freqs band = true) bands ->
  exists r,
    compute_band_relpower welch simps X = Ok r /\
    length r = (5 * length psd)%nat /\
    forall c, (c < length psd)%nat ->
              (forall b, (b < 5)%nat ->
                         exists v,
                           nth_error r (b * length psd + c) = Some v /\
                           not_negative v) /\
              not_negative (band_sum64 r (length psd) c).
Proof.
  intros Hwelch Hfreqs Hdx Hlen Hpsd Hbands.
  destruct (simps_succeeds_on_bands freqs psd f0 f1 tail (PrimFloat.sub f1 f0)
              Hfreqs Hlen Hbands) as (Hsel & Htot).
  destruct (compute_band_relpower_entries welch simps X freqs psd f0 f1 tail
              Hwelch Hfreqs Hlen Hsel Htot)
    as (r & totals & Hr & Hr_len & _ & Hentries).
  exists r. split; [exact Hr |]. split; [exact Hr_len |]. intros c Hc.
  assert (forall b, (b < 5)%nat ->
                    exists v, nth_error r (b * length psd + c) = Some v /\
                              not_negative v) as Hall.
  { intros b Hb.
    destruct (nth_error psd c) as [col |] eqn:Hcol;
      [| apply nth_error_None in Hcol; lia].
    assert (exists band, nth_error (bands (num := float)) b = Some band)
      as (band & Hband).
    { do 5 (destruct b as [| b]; [eexists; reflexivity |]). lia. }
    assert (In col psd) as Hin
        by (apply nth_error_In with (n := c); exact Hcol).
    assert (In band bands) as Hinb
        by (apply nth_error_In with (n := b); exact Hband).
    destruct (Hsel band col Hinb Hin) as (a & Ha).
    destruct (Htot col Hin) as (t & Ht).
    assert (Forall not_negative col) as Hcol_nn
        by (rewrite Forall_forall in Hpsd; apply Hpsd; exact Hin).
    eexists. split; [apply (Hentries b band c col a t); assumption |].
    apply relpower_entry_not_negative.
    - apply (simps_not_negative _ _ _ Hdx
               (band_samples_Forall _ freqs band col Hcol_nn) Ha).
    - apply (simps_not_negative _ _ _ Hdx Hcol_nn Ht). }
  split; [exact Hall |].
  unfold band_sum64. cbn [seq map fold_left].
  assert (forall b, (b < 5)%nat ->
                    not_negative (nth (b * length psd + c) r 0%float)) as Hnth.
  { intros b Hb. destruct (Hall b Hb) as (v & Hv & Hnn).
    rewrite (nth_error_nth _ _ _ Hv). exact Hnn. }
  repeat apply not_negative_add; try (apply Hnth; lia).
  left. reflexivity.
Qed.

(** The band relative powers of the 2 Hz tone in float64. *)
Lemma band_relpower_never_negative_tone :
  exists r,
    compute_band_relpower tone_welch_float64 simps [] = Ok r /\
    length r = (5 * 1)%nat /\
    forall c, (c < 1)%nat ->
              (forall b, (b < 5)%nat ->
                         exists v,
                           nth_error r (b * 1 + c) = Some v /\
                           not_negative v) /\
              not_negative (band_sum64 r 1 c).
Proof.
  apply (band_relpower_never_negative tone_welch_float64 [] flat_freqs
           [ [0; 0.25; 1; 0.25] ++ repeat 0 125 ]%float
           0%float 1%float (skipn 2 flat_freqs)).
  - reflexivity.
  - vm_compute. reflexivity.
  - left. vm_compute. reflexivity.
  - repeat constructor.
  - constructor; [| constructor].
    apply Forall_not_negative_of_leb. vm_compute. reflexivity.
  - repeat (constructor; [vm_compute; reflexivity |]). constructor.
Defined.

(** In float64 the sum of the five relative powers of the tone is 1.125,
    which is not at most 1. *)
Lemma tone_band_sum_float64 :
  exists r,
    compute_band_relpower tone_welch_float64 simps [] = Ok r /\
    band_sum64 r 1 0 = 1.125%float /\
    PrimFloat.leb (band_sum64 r 1 0) 1 = false.
Proof.
  eexists. split; [vm_compute; reflexivity |].
  split; vm_compute; reflexivity.
Qed.

(** A finite PSD whose integrals overflow: every entry is a NaN. *)
Lemma overflow_gives_nan :
  exists r,
    compute_band_relpower overflow_welch simps [] = Ok r /\
    length r = 5%nat /\
    Forall (fun v => PrimFloat.is_nan v = true) r.
Proof.
  eexists. split; [vm_compute; reflexivity |]. split; [reflexivity |].
  repeat constructor.
Qed.

(** A band that selects no frequency has nothing to integrate: with the
    modelled rule the call raises IndexError. *)
Lemma empty_band_raises :
  compute_band_relpower coarse_welch simps [] = Raise IndexError.
Proof. vm_compute. reflexivity. Qed.

(** The total power of a flat window is zero, and every entry of the
    result is -0.0. *)
Lemma zero_power_guard_flat_window :
  exists r totals,
    compute_band_relpower flat_welch simps flat_window = Ok r /\
    length r = (5 * length flat_psd)%nat /\
    (forall b, (b < 5)%nat ->
               exists v,
                 nth_error r (b * length flat_psd + 0) = Some v /\
                 v = (-0)%float /\
                 PrimFloat.eqb v 0%float = true /\
                 PrimFloat.is_nan v = false) /\
    map_result (fun col => simps col (PrimFloat.sub 1 0)) flat_psd
    = Ok totals /\
    Forall (fun t => PrimFloat.eqb t 0%float = false)
           (minus_one_where_no_power totals).
Proof.
  assert (Forall (fun col : list float => length col = length flat_freqs)
                 flat_psd) as Hlen by (repeat constructor).
  assert (Forall (fun band => band_selects flat_freqs band = true)
                 (bands (num := float))) as Hbands
      by (repeat (constructor; [vm_compute; reflexivity |]); constructor).
  destruct (simps_succeeds_on_bands flat_freqs flat_psd 0%float 1%float
              (skipn 2 flat_freqs) (PrimFloat.sub 1 0)
              ltac:(vm_compute; reflexivity) Hlen Hbands) as (Hsel & Htot).
  apply (zero_power_guard flat_welch simps flat_window flat_freqs flat_psd
           0%float 1%float (skipn 2 flat_freqs) 0 (repeat 0%float 129)
           0%float).
  - reflexivity.
  - vm_compute. reflexivity.
  - exact Hlen.
  - exact Hsel.
  - exact Htot.
  - reflexivity.
  - vm_compute. reflexivity.
  - reflexivity.
Defined.

(** A constant signal need not have zero total power: when the mean of
    the constant is not computed exactly, mean removal leaves a constant
    residual, and the residual has a relative power of one sixth in the
    first band, in both channels. *)
Lemma constant_signal_keeps_power :
  Forall (fun row => row = [0x1.999999999999ap-4; 0x1.999999999999ap-4]%float)
         constant_window /\
  exists r v,
    compute_band_relpower residual_welch simps constant_window = Ok r /\
    nth_error r 0 = Some v /\
    PrimFloat.eqb v 0%float = false /\
    PrimFloat.ltb 0.15625 v = true /\ PrimFloat.ltb v 0.171875 = true.
Proof.
  split.
  - apply Forall_forall. intros row Hin. unfold constant_window in Hin.
    apply repeat_spec in Hin. exact Hin.
  - eexists. eexists. split; [vm_compute; reflexivity |].
    split; [reflexivity |]. repeat split; vm_compute; reflexivity.
Qed.

(** ** The windower on sample recordings *)



(** A window_size above num_obs raises nothing: the window sequence is
    empty. *)
Lemma oversized_window_is_no_error :
  (Z.of_nat (length (channels 3)) < 5) /\
  windows 5 2 (channels 3) (indicator 3 0 0 0) = Ok [] /\
  ~ (exists e, windows 5 2 (channels 3) (indicator 3 0 0 0) = Raise e).
Proof.
  split; [vm_compute; reflexivity |].
  split; [reflexivity |].
  intros (e & He). discriminate He.
Qed.

(** ** The dataset on sample recordings *)

Lemma recording_rows_nonempty (n : nat) (lo hi : Z) (flag : Q) :
  Forall (fun row => row <> []) (recording n lo hi flag).
Proof.
  apply Forall_forall. intros row Hin. unfold recording in Hin.
  apply in_map_iff in Hin as (k & <- & _). discriminate.
Qed.

Lemma count_features_total (X_w : list (list Q)) :
  exists f, count_features X_w = Ok f.
Proof. eexists. reflexivity. Qed.

(** Nine samples, window_size 4, stride 2: three entries in each list. *)
Lemma recording_contribution_nine_samples :
  exists d',
    process_node count_features 4 2 empty_dataset (sample_node 9 0 0 0)
    = Ok d' /\
    length (features d') = 3%nat /\
    length (labels d') = 3%nat /\
    length (subjects d') = 3%nat.
Proof.
  destruct (recording_contribution count_features 4 2 empty_dataset
              (sample_node 9 0 0 0) ltac:(lia)
              count_features_total (recording_rows_nonempty 9 0 0 0))
    as (d' & Hd' & Hf & Hl & Hs).
  exists d'. split; [exact Hd' |]. split; [exact Hf |].
  split; [exact Hl | exact Hs].
Defined.

(** Seven samples, window_size 4, stride 2: the start indices 4 and 6 give
    two windows, where floor((7 - 4)/2) is 1. *)
Lemma seven_samples_two_windows :
  exists d',
    process_node count_features 4 2 empty_dataset (sample_node 7 0 0 0)
    = Ok d' /\
    length (features d') = 2%nat /\
    spec_count_invariant
      (Z.of_nat (length (read (sample_node 7 0 0 0)))) 4 2 = 1 /\
    Z.of_nat (length (features d')) <>
    spec_count_invariant
      (Z.of_nat (length (read (sample_node 7 0 0 0)))) 4 2.
Proof.
  eexists. split; [vm_compute; reflexivity |].
  split; [reflexivity |]. split; [reflexivity |].
  vm_compute. discriminate.
Qed.

(** The end-to-end scenario of the specification: 2000 samples, the
    samples 1000 to 1199 flagged, window_size 400, stride 200. The labels
    are true exactly for the windows that overlap the flagged range, those
    ending at 1200 and at 1400. *)
Lemma window_label_is_or_scenario :
  exists d',
    process_node count_features 400 200 empty_dataset
                 (sample_node 2000 1000 1200 1) = Ok d' /\
    labels d' = [false; false; false; false; true; true; false; false].
Proof.
  destruct (window_label_is_or count_features 400 200 empty_dataset
              (sample_node 2000 1000 1200 1) ltac:(lia)
              count_features_total (recording_rows_nonempty 2000 1000 1200 1))
    as (y & starts & d' & Hy & Hstarts & Hd' & Hlabels & _).
  exists d'. split; [exact Hd' |].
  vm_compute in Hy. injection Hy as <-.
  vm_compute in Hstarts. injection Hstarts as <-.
  rewrite Hlabels. vm_compute. reflexivity.
Defined.

Lemma label_of_indicator_two :
  process_node count_features 4 2 empty_dataset (sample_node 9 5 6 2)
  = Ok (mkDataset [[4]; [4]; [4]]%Q [false; true; true]
                  ["chb01"; "chb01"; "chb01"]%string).
Proof. vm_compute. reflexivity. Qed.

(** ** The split *)


Lemma mask_select_none {A : Type} (a : list A) :
  Np.mask_select a (repeat false (length a)) = Ok [].
Proof.
  unfold Np.mask_select. rewrite repeat_length, Nat.eqb_refl. f_equal.
  induction a as [| x a IH]; simpl; [reflexivity | exact IH].
Qed.





(** ** The standardiser *)

Section StandardizerFacts.
Context {num stats : Type}.
Variable fit_stats : list (list num) -> result stats.
Variable apply_stats : stats -> list (list num) -> result (list (list num)).

(** C8: the cell succeeds exactly when fitting on the training features
    and rescaling both matrices succeed; the statistics the scaler then
    holds are those fitted on the training features, and the training and
    the test features are both rescaled with them. The test features have
    no influence on the statistics or on the rescaled training
    features. *)
Theorem scaler_fitted_on_training_only (X_train X_test : list (list num)) :
  (forall S a b,
      standardize fit_stats apply_stats X_train X_test = Ok (S, a, b) <->
      exists st,
        fit_stats X_train = Ok st /\ S = Some st /\
        apply_stats st X_train = Ok a /\ apply_stats st X_test = Ok b) /\
  (forall X_test' S a b S' a' b',
      standardize fit_stats apply_stats X_train X_test = Ok (S, a, b) ->
      standardize fit_stats apply_stats X_train X_test' = Ok (S', a', b') ->
      S' = S /\ a' = a).
Proof.
  assert (forall Xt S a b,
             standardize fit_stats apply_stats X_train Xt = Ok (S, a, b) <->
             exists st,
               fit_stats X_train = Ok st /\ S = Some st /\
               apply_stats st X_train = Ok a /\ apply_stats st Xt = Ok b)
    as Hiff.
  { intros Xt S a b. unfold standardize, fit_transform, transform. split.
    - intros Hrun.
      destruct (fit_stats X_train) as [st | e] eqn:Hst; [| discriminate Hrun].
      cbn [bind] in Hrun.
      destruct (apply_stats st X_train) as [a0 | e] eqn:Ha;
        [| discriminate Hrun].
      cbn [bind fst snd] in Hrun.
      destruct (apply_stats st Xt) as [b0 | e] eqn:Hb; [| discriminate Hrun].
      cbn [bind] in Hrun. injection Hrun as <- <- <-.
      exists st. repeat split; assumption.
    - intros (st & -> & -> & Ha & Hb). cbn [bind]. rewrite Ha.
      cbn [bind fst snd]. rewrite Hb. reflexivity. }
  split; [apply Hiff |].
  intros X_test' S a b S' a' b' Hrun Hrun'.
  apply Hiff in Hrun as (st & Hst & -> & Ha & _).
  apply Hiff in Hrun' as (st' & Hst' & -> & Ha' & _).
  rewrite Hst in Hst'. injection Hst' as <-.
  rewrite Ha in Ha'. injection Ha' as <-.
  split; reflexivity.
Qed.

End StandardizerFacts.

(** * Further properties of the notebook *)

(** ** The subject identifier *)

Lemma split_head_decompose (sep : ascii) (s : string) :
  exists rest,
    s = (Py.split_head sep s ++ rest)%string /\
    contains_char sep (Py.split_head sep s) = false /\
    (rest = EmptyString \/ exists r, rest = String sep r).
Proof.
  induction s as [| c s (rest & Hs & Hno & Hrest)]; simpl.
  - exists EmptyString. repeat split. left. reflexivity.
  - destruct (Ascii.eqb c sep) eqn:Hc.
    + apply Ascii.eqb_eq in Hc. subst c. exists (String sep s).
      repeat split. right. exists s. reflexivity.
    + exists rest. simpl. rewrite Hc, Hno. repeat split.
      * f_equal. exact Hs.
      * exact Hrest.
Qed.

Lemma contains_char_append (c : ascii) (s t : string) :
  contains_char c (s ++ t)%string = contains_char c s || contains_char c t.
Proof.
  induction s as [| c' s IH]; simpl; [reflexivity |].
  rewrite IH. apply orb_assoc.
Qed.

Lemma append_assoc (s t u : string) :
  ((s ++ t) ++ u = s ++ (t ++ u))%string.
Proof.
  induction s as [| c s IH]; simpl; [reflexivity | f_equal; exact IH].
Qed.

Lemma append_empty_r (s : string) : (s ++ EmptyString)%string = s.
Proof.
  induction s as [| c s IH]; simpl; [reflexivity | f_equal; exact IH].
Qed.

(** The subject identifier is the part of the node name before its first
    underscore or slash: the name is the identifier followed by nothing or
    by a rest that starts with one of the two separators, and the
    identifier holds neither of them. A name without separators is its own
    identifier. *)
Theorem subject_id_is_name_prefix (name : string) :
  (exists rest,
      name = (subject_id_of name ++ rest)%string /\
      (rest = EmptyString \/
       exists c r, rest = String c r /\ (c = "_"%char \/ c = "/"%char))) /\
  contains_char "_" (subject_id_of name) = false /\
  contains_char "/" (subject_id_of name) = false /\
  (contains_char "_" name = false -> contains_char "/" name = false ->
   subject_id_of name = name).
Proof.
  unfold subject_id_of.
  destruct (split_head_decompose "/" name) as (r1 & H1 & Hno1 & Hr1).
  destruct (split_head_decompose "_" (Py.split_head "/" name))
    as (r2 & H2 & Hno2 & Hr2).
  set (head := Py.split_head "/" name) in *.
  set (id := Py.split_head "_" head) in *.
  assert (contains_char "/" id = false) as Hno.
  { rewrite H2, contains_char_append in Hno1.
    apply orb_false_iff in Hno1 as (Hid & _). exact Hid. }
  split; [| split; [exact Hno2 | split; [exact Hno |]]].
  - exists (r2 ++ r1)%string. split.
    + rewrite <- append_assoc, <- H2. exact H1.
    + destruct Hr2 as [-> | (r & ->)].
      * simpl. destruct Hr1 as [-> | (r & ->)]; [left; reflexivity |].
        right. exists "/"%char, r. split; [reflexivity | right; reflexivity].
      * right. exists "_"%char, (r ++ r1)%string.
        split; [reflexivity | left; reflexivity].
  - intros Hu Hs.
    assert (head = name) as Hhead.
    { destruct Hr1 as [-> | (r & ->)].
      - rewrite H1. symmetry. apply append_empty_r.
      - rewrite H1, contains_char_append in Hs. simpl in Hs.
        rewrite orb_true_r in Hs. discriminate Hs. }
    rewrite <- Hhead in Hu |- *.
    destruct Hr2 as [-> | (r & ->)].
    + rewrite H2. symmetry. apply append_empty_r.
    + rewrite H2, contains_char_append in Hu. simpl in Hu.
      rewrite orb_true_r in Hu. discriminate Hu.
Qed.

(** ** The shape of the window sequence *)

Lemma removelast_length {A : Type} (l : list A) :
  length (removelast l) = pred (length l).
Proof.
  rewrite removelast_firstn_len, length_firstn. lia.
Qed.

(** A slice that ends before the last element does not see it. *)
Lemma slice_before_last {A : Type} (l : list A) (lo hi : Z) :
  0 <= lo <= hi -> hi < Z.of_nat (length l) ->
  Py.slice l lo hi = Py.slice (removelast l) lo hi.
Proof.
  intros Hlo Hhi.
  rewrite (slice_inside l) by lia.
  rewrite (slice_inside (removelast l))
    by (rewrite ?removelast_length; lia).
  rewrite removelast_firstn_len, skipn_firstn_comm, firstn_firstn.
  f_equal. lia.
Qed.

Section WindowShape.
Context {num : Type} `{Dtype num}.
Variables window_size stride : Z.

(** The last sample of a recording reaches no window: two recordings of
    the same length that agree on all samples but the last have the same
    window sequence. *)
Theorem last_sample_reaches_no_window
        (X X' : list (list num)) (y y' : list num) :
  0 < window_size -> 0 < stride ->
  length X' = length X -> length y = length X -> length y' = length X ->
  removelast X' = removelast X -> removelast y' = removelast y ->
  exists ws,
    windows window_size stride X y = Ok ws /\
    windows window_size stride X' y' = Ok ws.
Proof.
  intros Hw Hs HX' Hy Hy' HrX Hry.
  pose proof (range_positive_step window_size (Z.of_nat (length X)) stride Hs)
    as Hstarts.
  set (starts := map _ _) in Hstarts.
  exists (map (fun ix => (window_at window_size X ix,
                          window_at window_size y ix)) starts).
  unfold windows, window_starts in *. rewrite HX', Hstarts. cbn [bind].
  split; [reflexivity |]. f_equal. apply map_ext_in. intros ix Hin.
  pose proof (window_starts_bounds window_size stride _ _ _ Hs Hstarts Hin)
    as Hb.
  unfold window_at.
  rewrite (slice_before_last X), (slice_before_last X'),
    (slice_before_last y), (slice_before_last y') by lia.
  rewrite HrX, Hry. reflexivity.
Qed.

(** Consecutive windows overlap: for stride <= window_size the window of
    the next start index begins with the last window_size - stride samples
    of the current one. *)
Theorem consecutive_windows_overlap
        (X : list (list num)) (starts : list Z) (ix : Z) :
  0 < stride -> stride <= window_size ->
  window_starts window_size stride (Z.of_nat (length X)) = Ok starts ->
  In ix starts -> In (ix + stride) starts ->
  skipn (Z.to_nat stride) (window_at window_size X ix) =
  firstn (Z.to_nat (window_size - stride))
         (window_at window_size X (ix + stride)).
Proof.
  intros Hs Hsw Hstarts Hin Hnext.
  pose proof (window_starts_bounds window_size stride _ _ _ Hs Hstarts Hin)
    as Hb.
  pose proof (window_starts_bounds window_size stride _ _ _ Hs Hstarts Hnext)
    as Hb'.
  unfold window_at. rewrite !slice_inside by lia.
  rewrite skipn_firstn_comm, skipn_skipn, firstn_firstn.
  f_equal; [lia |]. f_equal. lia.
Qed.

(** No sample before the last start index is skipped: for stride <=
    window_size every position below some start index lies in a window,
    at the offset that its position gives. *)
Theorem windows_leave_no_gap
        (X : list (list num)) (starts : list Z) (last_ix : Z) (i : nat) :
  0 < stride -> stride <= window_size ->
  window_starts window_size stride (Z.of_nat (length X)) = Ok starts ->
  In last_ix starts -> Z.of_nat i < last_ix ->
  exists ix,
    In ix starts /\ ix - window_size <= Z.of_nat i < ix /\
    nth_error (window_at window_size X ix)
              (i - Z.to_nat (ix - window_size)) = nth_error X i.
Proof.
  intros Hs Hsw Hstarts Hlast Hi.
  pose proof (window_starts_bounds window_size stride _ _ _ Hs Hstarts Hlast)
    as Hbl.
  apply (in_range_positive_step _ _ _ _ last_ix Hs Hstarts) in Hlast.
  destruct Hlast as ((kl & Hkl & Hlast) & Hlt).
  set (k := if Z.of_nat i <? window_size then 0
            else (Z.of_nat i - window_size) / stride + 1).
  assert (0 <= k /\ k * stride <= Z.of_nat i /\
          Z.of_nat i < window_size + k * stride /\ k <= kl)
    as (Hk & Hlo & Hhi & Hkkl).
  { unfold k. destruct (Z.of_nat i <? window_size) eqn:E.
    - apply Z.ltb_lt in E. lia.
    - apply Z.ltb_ge in E.
      pose proof (Z.div_mod (Z.of_nat i - window_size) stride ltac:(lia)).
      pose proof (Z.mod_pos_bound (Z.of_nat i - window_size) stride Hs).
      assert (0 <= (Z.of_nat i - window_size) / stride)
        by (apply Z.div_pos; lia).
      assert ((Z.of_nat i - window_size) / stride < kl)
        by (apply Z.div_lt_upper_bound; lia).
      repeat split; nia. }
  exists (window_size + k * stride).
  assert (In (window_size + k * stride) starts) as Hin.
  { apply (in_range_positive_step _ _ _ _ _ Hs Hstarts). split.
    - exists k. split; [exact Hk | reflexivity].
    - nia. }
  pose proof (window_starts_bounds window_size stride _ _ _ Hs Hstarts Hin)
    as Hb.
  split; [exact Hin |]. split; [lia |].
  unfold window_at. rewrite slice_inside_nth_error by lia.
  f_equal. lia.
Qed.

(** A negative stride raises nothing: the start indices then descend from
    window_size while they are above num_obs, so there is no window at all
    when window_size <= num_obs. *)
Theorem negative_stride_descends (X : list (list num)) (y : list num) :
  stride < 0 ->
  let num_obs := Z.of_nat (length X) in
  exists starts,
    window_starts window_size stride num_obs = Ok starts /\
    windows window_size stride X y =
    Ok (map (fun ix => (window_at window_size X ix,
                        window_at window_size y ix)) starts) /\
    (forall ix, In ix starts <->
                (exists k, 0 <= k /\ ix = window_size + k * stride) /\
                num_obs < ix) /\
    (window_size <= num_obs -> starts = []).
Proof.
  intros Hs num_obs.
  destruct (Py.range window_size num_obs stride) as [starts | e] eqn:Hr.
  - exists starts. unfold windows, window_starts. fold num_obs. rewrite Hr.
    split; [reflexivity |]. split; [reflexivity |].
    assert (forall ix, In ix starts <->
                       (exists k, 0 <= k /\ ix = window_size + k * stride) /\
                       num_obs < ix) as Hin
        by (intros ix; apply in_range_negative_step; assumption).
    split; [exact Hin |]. intros Hle.
    destruct starts as [| ix rest]; [reflexivity |]. exfalso.
    destruct (proj1 (Hin ix) (or_introl eq_refl)) as ((k & Hk & ->) & Hlt).
    nia.
  - exfalso. unfold Py.range in Hr.
    destruct (stride =? 0) eqn:E0; [apply Z.eqb_eq in E0; lia |].
    destruct (0 <? stride); discriminate Hr.
Qed.

End WindowShape.

(** ** The dataset the loops build *)

Lemma for_each_app {S I : Type} (body : S -> I -> result S)
      (l1 l2 : list I) (st : S) :
  for_each body (l1 ++ l2) st =
  (st' <- for_each body l1 st ;; for_each body l2 st').
Proof.
  revert st. induction l1 as [| i l1 IH]; intros st; simpl; [reflexivity |].
  destruct (body st i) as [st1 | e]; simpl; [apply IH | reflexivity].
Qed.

Lemma for_each_invariant {S I : Type} (body : S -> I -> result S)
      (P : S -> Prop) :
  (forall st i st', P st -> body st i = Ok st' -> P st') ->
  forall items st st',
    P st -> for_each body items st = Ok st' -> P st'.
Proof.
  intros Hbody items. induction items as [| i items IH]; simpl;
    intros st st' Hst Hrun.
  - injection Hrun as <-. exact Hst.
  - apply bind_ok_inv in Hrun as (st1 & Hst1 & Hrun).
    apply (IH st1 st'); [apply (Hbody st i st1) |]; assumption.
Qed.

Lemma map_const_repeat {A B : Type} (b : B) (l : list A) :
  map (fun _ => b) l = repeat b (length l).
Proof.
  induction l as [| a l IH]; simpl; [reflexivity | f_equal; exact IH].
Qed.


Lemma last_column_missing {A : Type} (a : list (list A)) :
  Exists (fun row => row = []) a -> Np.last_column a = Raise IndexError.
Proof.
  induction a as [| row a IH]; intros Hex; [inversion Hex |]. simpl.
  destruct (rev row) as [| v r] eqn:Hrev; [reflexivity |].
  rewrite IH; [reflexivity |].
  inversion Hex as [? ? Hrow | ? ? Hrest]; subst; [| exact Hrest].
  discriminate Hrev.
Qed.

Section DatasetFacts.
Context {num : Type} `{Dtype num}.
Variable feature_vector_of : list (list num) -> result (list num).
Variables window_size stride : Z.

(** What a successful run of the inner loop has appended. *)
Lemma for_each_window_body_inv (sid : string) (X : list (list num))
      (y : list num) (starts : list Z) :
  forall d d',
    for_each (window_body feature_vector_of window_size sid X y) starts d
    = Ok d' ->
    exists fs,
      map_result (fun ix => feature_vector_of (window_at window_size X ix))
                 starts = Ok fs /\
      d' = mkDataset
             (features d ++ fs)
             (labels d ++
              map (fun ix => Np.any (window_at window_size y ix)) starts)
             (subjects d ++ map (fun _ => sid) starts).
Proof.
  induction starts as [| ix starts IH]; simpl; intros d d' Hrun.
  - injection Hrun as <-. exists []. split; [reflexivity |].
    rewrite !app_nil_r. destruct d; reflexivity.
  - apply bind_ok_inv in Hrun as (d1 & Hd1 & Hrun).
    unfold window_body in Hd1.
    apply bind_ok_inv in Hd1 as (fv & Hfv & Hd1). injection Hd1 as <-.
    apply IH in Hrun as (fs & Hfs & ->). cbn [features labels subjects].
    exists (fv :: fs). rewrite Hfv, Hfs. split; [reflexivity |].
    rewrite <- !app_assoc. reflexivity.
Qed.

(** What a successful run of one node has appended. *)
Lemma process_node_inv (d d' : dataset num) (nd : node num) :
  process_node feature_vector_of window_size stride d nd = Ok d' ->
  exists y starts fs,
    Np.last_column (read nd) = Ok y /\
    window_starts window_size stride (Z.of_nat (length (read nd))) = Ok starts /\
    map_result (fun ix => feature_vector_of
                            (window_at window_size
                                       (Np.drop_last_column (read nd)) ix))
               starts = Ok fs /\
    d' = mkDataset
           (features d ++ fs)
           (labels d ++ map (fun ix => Np.any (window_at window_size y ix)) starts)
           (subjects d ++ map (fun _ => subject_id_of (v_name nd)) starts).
Proof.
  unfold process_node. intros Hrun.
  apply bind_ok_inv in Hrun as (y & Hy & Hrun).
  apply bind_ok_inv in Hrun as (starts & Hstarts & Hrun).
  unfold Np.drop_last_column in Hstarts at 1. rewrite length_map in Hstarts.
  apply for_each_window_body_inv in Hrun as (fs & Hfs & ->).
  exists y, starts, fs. repeat split; assumption.
Qed.

(** The three lists stay aligned: whenever the extraction succeeds, the
    features, the labels and the subjects have the same number of entries,
    for any feature extractor and any parameters. *)
Theorem extract_keeps_lists_aligned (nodes : list (node num))
        (d : dataset num) :
  extract feature_vector_of window_size stride nodes = Ok d ->
  length (features d) = length (labels d) /\
  length (labels d) = length (subjects d).
Proof.
  unfold extract.
  apply (for_each_invariant
           (process_node feature_vector_of window_size stride)
           (fun d => length (features d) = length (labels d) /\
                     length (labels d) = length (subjects d))).
  - intros st nd st' (Hfl & Hls) Hrun.
    apply process_node_inv in Hrun as (y & starts & fs & _ & _ & Hfs & ->).
    apply map_result_length in Hfs. cbn [features labels subjects].
    rewrite !length_app, !length_map. lia.
  - split; reflexivity.
Qed.

(** Rows are only ever appended: when the extraction of a longer node
    list succeeds, so does the extraction of every prefix of it, and the
    longer dataset starts with the shorter one. *)
Theorem extract_only_appends (nodes more : list (node num))
        (d' : dataset num) :
  extract feature_vector_of window_size stride (nodes ++ more) = Ok d' ->
  exists d fs ls ss,
    extract feature_vector_of window_size stride nodes = Ok d /\
    features d' = features d ++ fs /\
    labels d' = labels d ++ ls /\
    subjects d' = subjects d ++ ss.
Proof.
  unfold extract. rewrite for_each_app. intros Hrun.
  apply bind_ok_inv in Hrun as (d & Hd & Hrun). exists d.
  assert (exists fs ls ss,
             features d' = features d ++ fs /\
             labels d' = labels d ++ ls /\
             subjects d' = subjects d ++ ss) as (fs & ls & ss & Hext).
  { apply (for_each_invariant
             (process_node feature_vector_of window_size stride)
             (fun st => exists fs ls ss,
                          features st = features d ++ fs /\
                          labels st = labels d ++ ls /\
                          subjects st = subjects d ++ ss)
             ) with (items := more) (st := d); [| | exact Hrun].
    - intros st nd st' (fs & ls & ss & Hf & Hl & Hsb) Hnode.
      apply process_node_inv in Hnode as (y & starts & fs' & _ & _ & _ & ->).
      cbn [features labels subjects]. rewrite Hf, Hl, Hsb.
      do 3 eexists. rewrite <- !app_assoc. repeat split.
    - exists [], [], []. rewrite !app_nil_r. repeat split. }
  exists fs, ls, ss. split; [exact Hd | exact Hext].
Qed.

(** A recording with a row that has no column has no indicator column:
    the node raises IndexError, whatever the parameters (a zero stride
    included) and the feature extractor. *)
Theorem process_node_needs_indicator_column (d : dataset num)
        (nd : node num) :
  Exists (fun row => row = []) (read nd) ->
  process_node feature_vector_of window_size stride d nd = Raise IndexError.
Proof.
  intros Hex. unfold process_node.
  rewrite (last_column_missing _ Hex). reflexivity.
Qed.

End DatasetFacts.

Lemma drop_last_column_width {A : Type} (a : list (list A)) (c : nat) :
  Forall (fun row => length row = S c) a ->
  Forall (fun row => length row = c) (Np.drop_last_column a).
Proof.
  intros Ha. unfold Np.drop_last_column. apply Forall_map.
  apply Forall_impl with (2 := Ha). intros row Hrow.
  unfold Py.slice, Py.adjust_index.
  change (0 <? 0) with false. change (-1 <? 0) with true. cbv iota.
  rewrite length_firstn, length_skipn, Hrow. lia.
Qed.

Section DatasetContents.
Context {num : Type} `{Dtype num}.
Variable feature_vector_of : list (list num) -> result (list num).
Variables window_size stride : Z.

Lemma window_starts_length (num_obs : Z) (starts : list Z) :
  0 < stride ->
  window_starts window_size stride num_obs = Ok starts ->
  length starts = Z.to_nat (range_len window_size num_obs stride).
Proof.
  intros Hs Hstarts. unfold window_starts in Hstarts.
  rewrite range_positive_step in Hstarts by assumption.
  injection Hstarts as <-. rewrite length_map, length_seq. reflexivity.
Qed.

Lemma for_each_process_node_subjects (nodes : list (node num)) :
  0 < stride ->
  (forall X_w, exists f, feature_vector_of X_w = Ok f) ->
  Forall (fun nd => Forall (fun row => row <> []) (read nd)) nodes ->
  forall d0,
  exists d,
    for_each (process_node feature_vector_of window_size stride) nodes d0
    = Ok d /\
    subjects d =
    subjects d0 ++
    flat_map (fun nd =>
                repeat (subject_id_of (v_name nd))
                       (Z.to_nat (range_len window_size
                                            (Z.of_nat (length (read nd)))
                                            stride)))
             nodes.
Proof.
  intros Hs Hfeat Hnodes.
  induction Hnodes as [| nd nodes Hnd _ IH]; intros d0; simpl.
  - exists d0. split; [reflexivity |]. rewrite app_nil_r. reflexivity.
  - destruct (process_node_ok feature_vector_of window_size stride d0 nd
                Hs Hfeat Hnd) as (y & starts & fs & _ & Hstarts & _ & Hd1).
    rewrite Hd1. cbn [bind].
    destruct (IH (mkDataset
                    (features d0 ++ fs)
                    (labels d0 ++
                     map (fun ix => Np.any (window_at window_size y ix)) starts)
                    (subjects d0 ++
                     map (fun _ => subject_id_of (v_name nd)) starts)))
      as (d & Hd & Hsub).
    exists d. split; [exact Hd |]. rewrite Hsub. cbn [subjects].
    rewrite map_const_repeat, (window_starts_length _ _ Hs Hstarts).
    rewrite <- app_assoc. reflexivity.
Qed.

(** The subjects column: when the feature extractor succeeds on every
    window, the extraction succeeds, and the subjects list holds, node
    after node in file order, the subject identifier of the node once per
    window of its recording. *)
Theorem extract_subjects_by_node (nodes : list (node num)) :
  0 < stride ->
  (forall X_w, exists f, feature_vector_of X_w = Ok f) ->
  Forall (fun nd => Forall (fun row => row <> []) (read nd)) nodes ->
  exists d,
    extract feature_vector_of window_size stride nodes = Ok d /\
    subjects d =
    flat_map (fun nd =>
                repeat (subject_id_of (v_name nd))
                       (Z.to_nat (range_len window_size
                                            (Z.of_nat (length (read nd)))
                                            stride)))
             nodes.
Proof.
  intros Hs Hfeat Hnodes.
  destruct (for_each_process_node_subjects nodes Hs Hfeat Hnodes
              empty_dataset) as (d & Hd & Hsub).
  exists d. split; [exact Hd | exact Hsub].
Qed.

(** The labels of a recording depend on its indicator column alone: two
    recordings with the same indicator column get the same labels,
    whatever their channel data and whatever the feature extractors. *)
Theorem labels_depend_on_indicator_only
        (other_extractor : list (list num) -> result (list num))
        (d1 d2 : dataset num) (nd1 nd2 : node num) :
  0 < stride ->
  (forall X_w, exists f, feature_vector_of X_w = Ok f) ->
  (forall X_w, exists f, other_extractor X_w = Ok f) ->
  Forall (fun row => row <> []) (read nd1) ->
  Forall (fun row => row <> []) (read nd2) ->
  Np.last_column (read nd1) = Np.last_column (read nd2) ->
  labels d1 = labels d2 ->
  exists d1' d2',
    process_node feature_vector_of window_size stride d1 nd1 = Ok d1' /\
    process_node other_extractor window_size stride d2 nd2 = Ok d2' /\
    labels d1' = labels d2'.
Proof.
  intros Hs Hf1 Hf2 Hr1 Hr2 Hcol Hlabels.
  destruct (process_node_ok feature_vector_of window_size stride d1 nd1
              Hs Hf1 Hr1) as (y1 & starts1 & fs1 & Hy1 & Hst1 & _ & Hd1).
  destruct (process_node_ok other_extractor window_size stride d2 nd2
              Hs Hf2 Hr2) as (y2 & starts2 & fs2 & Hy2 & Hst2 & _ & Hd2).
  do 2 eexists. split; [exact Hd1 |]. split; [exact Hd2 |].
  cbn [labels]. rewrite Hcol, Hy2 in Hy1. injection Hy1 as <-.
  assert (length (read nd1) = length (read nd2)) as Hlen.
  { pose proof (last_column_map (lit 0) _ _ Hy2) as E2.
    rewrite <- Hcol in Hy2.
    pose proof (last_column_map (lit 0) _ _ Hy2) as E1.
    apply (f_equal (@length num)) in E1, E2.
    rewrite length_map in E1, E2. congruence. }
  rewrite Hlen, Hst2 in Hst1. injection Hst1 as <-.
  rewrite Hlabels. reflexivity.
Qed.

(** The feature vectors of a recording do not depend on its indicator
    column: two recordings with the same channel columns get the same
    feature vectors. *)
Theorem features_ignore_indicator (d1 d2 : dataset num)
        (nd1 nd2 : node num) :
  0 < stride ->
  (forall X_w, exists f, feature_vector_of X_w = Ok f) ->
  Forall (fun row => row <> []) (read nd1) ->
  Forall (fun row => row <> []) (read nd2) ->
  Np.drop_last_column (read nd1) = Np.drop_last_column (read nd2) ->
  features d1 = features d2 ->
  exists d1' d2',
    process_node feature_vector_of window_size stride d1 nd1 = Ok d1' /\
    process_node feature_vector_of window_size stride d2 nd2 = Ok d2' /\
    features d1' = features d2'.
Proof.
  intros Hs Hf Hr1 Hr2 HX Hfeatures.
  destruct (process_node_ok feature_vector_of window_size stride d1 nd1
              Hs Hf Hr1) as (y1 & starts1 & fs1 & _ & Hst1 & Hfs1 & Hd1).
  destruct (process_node_ok feature_vector_of window_size stride d2 nd2
              Hs Hf Hr2) as (y2 & starts2 & fs2 & _ & Hst2 & Hfs2 & Hd2).
  do 2 eexists. split; [exact Hd1 |]. split; [exact Hd2 |].
  cbn [features].
  assert (length (read nd1) = length (read nd2)) as Hlen.
  { apply (f_equal (@length (list num))) in HX.
    unfold Np.drop_last_column in HX. rewrite !length_map in HX. exact HX. }
  rewrite Hlen, Hst2 in Hst1. injection Hst1 as <-.
  rewrite HX, Hfs2 in Hfs1. injection Hfs1 as <-.
  rewrite Hfeatures. reflexivity.
Qed.

(** Recordings of at most window_size samples contribute nothing: when
    every recording is that short, the extraction succeeds with empty
    lists, without calling the feature extractor, and stacking the empty
    feature list then raises ValueError in the split. *)
Theorem short_recordings_leave_nothing_to_split
        (nodes : list (node num)) (test_subject_id : string) :
  0 < stride ->
  Forall (fun nd => Forall (fun row => row <> []) (read nd) /\
                    Z.of_nat (length (read nd)) <= window_size) nodes ->
  extract feature_vector_of window_size stride nodes = Ok empty_dataset /\
  split test_subject_id (@empty_dataset num) = Raise ValueError.
Proof.
  intros Hs Hnodes. split; [| reflexivity]. unfold extract.
  generalize (@empty_dataset num) as d.
  induction Hnodes as [| nd nodes (Hrows & Hshort) _ IH]; intros d; simpl;
    [reflexivity |].
  unfold process_node at 1.
  destruct (last_column_total _ Hrows) as (y & ->). cbn [bind].
  unfold Np.drop_last_column at 1. rewrite length_map.
  unfold window_starts. rewrite range_positive_step by assumption.
  rewrite range_len_empty by assumption. simpl. apply IH.
Qed.

End DatasetContents.

(** ** The windows the loop body works on

    The statements of this part describe the windows by positions in the
    node's array: [firstn] and [skipn] on the rows, [removelast] and [last]
    on a row. *)

Lemma slice_drops_last {A : Type} (row : list A) :
  Py.slice row 0 (-1) = removelast row.
Proof.
  unfold Py.slice.
  assert (Py.adjust_index (Z.of_nat (length row)) 0 = 0) as ->.
  { unfold Py.adjust_index. rewrite Z.ltb_irrefl. lia. }
  assert (Py.adjust_index (Z.of_nat (length row)) (-1)
          = Z.max 0 (-1 + Z.of_nat (length row))) as ->.
  { reflexivity. }
  rewrite removelast_firstn_len. cbn [Z.to_nat skipn].
  f_equal. lia.
Qed.

Lemma drop_last_column_removelast {A : Type} (a : list (list A)) :
  Np.drop_last_column a = map (@removelast A) a.
Proof.
  unfold Np.drop_last_column. apply map_ext. intros row.
  apply slice_drops_last.
Qed.

Lemma map_result_ext_in {A B : Type} (f g : A -> result B) (l : list A) :
  (forall a, In a l -> f a = g a) -> map_result f l = map_result g l.
Proof.
  induction l as [| a l IH]; simpl; intros Hfg; [reflexivity |].
  rewrite (Hfg a) by (left; reflexivity).
  rewrite IH by (intros a' Ha'; apply Hfg; right; exact Ha').
  reflexivity.
Qed.


Lemma Forall2_map_of_left {A B : Type} (g : A -> B) (P : A -> B -> Prop)
      (l : list A) :
  Forall (fun a => P a (g a)) l -> Forall2 P l (map g l).
Proof.
  induction 1 as [| a l Ha _ IH]; simpl; constructor; assumption.
Qed.


Lemma window_rows_nth_error {A : Type} (a : list A) (w ix : Z) (j : nat) :
  (j < Z.to_nat w)%nat ->
  nth_error (firstn (Z.to_nat w) (skipn (Z.to_nat (ix - w)) a)) j
  = nth_error a (Z.to_nat (ix - w) + j).
Proof.
  intros Hj. rewrite nth_error_firstn. apply Nat.ltb_lt in Hj. rewrite Hj.
  apply nth_error_skipn.
Qed.

Section WindowContents.
Context {num : Type} `{Dtype num}.
Variable feature_vector_of : list (list num) -> result (list num).
Variables window_size stride : Z.

(** One node, with every window written out by positions. *)
Lemma process_node_by_position (d : dataset num) (nd : node num) :
  0 < window_size -> 0 < stride ->
  (forall X_w, exists f, feature_vector_of X_w = Ok f) ->
  Forall (fun row => row <> []) (read nd) ->
  let num_obs := Z.of_nat (length (read nd)) in
  let starts :=
    map (fun k => window_size + Z.of_nat k * stride)
        (seq 0 (Z.to_nat (range_len window_size num_obs stride))) in
  exists fs,
    map_result
      (fun ix => feature_vector_of
                   (firstn (Z.to_nat window_size)
                           (skipn (Z.to_nat (ix - window_size))
                                  (map (@removelast num) (read nd)))))
      starts = Ok fs /\
    process_node feature_vector_of window_size stride d nd =
    Ok (mkDataset
          (features d ++ fs)
          (labels d ++
           map (fun ix =>
                  Np.any (firstn (Z.to_nat window_size)
                                 (skipn (Z.to_nat (ix - window_size))
                                        (map (fun row => last row (lit 0))
                                             (read nd)))))
               starts)
          (subjects d ++ map (fun _ => subject_id_of (v_name nd)) starts)) /\
    Forall (fun ix => window_size <= ix < num_obs) starts.
Proof.
  intros Hw Hstride Hfeat Hrows num_obs starts.
  destruct (process_node_ok feature_vector_of window_size stride d nd
              Hstride Hfeat Hrows)
    as (y & starts' & fs & Hy & Hstarts & Hfs & Hnode).
  assert (Forall (fun ix => window_size <= ix < num_obs) starts') as Hin.
  { apply Forall_forall. intros ix Hix.
    exact (window_starts_bounds window_size stride _ _ ix
             Hstride Hstarts Hix). }
  assert (starts' = starts) as Heq.
  { unfold window_starts in Hstarts.
    rewrite range_positive_step in Hstarts by assumption.
    injection Hstarts as <-. reflexivity. }
  rewrite Heq in *. clear Heq Hstarts.
  apply (last_column_map (lit 0)) in Hy. subst y.
  rewrite Forall_forall in Hin.
  exists fs. split; [| split].
  - rewrite <- Hfs. apply map_result_ext_in. intros ix Hix.
    specialize (Hin ix Hix). unfold window_at.
    rewrite drop_last_column_removelast, slice_inside.
    + do 3 f_equal. lia.
    + lia.
    + rewrite length_map. unfold num_obs in Hin. lia.
  - rewrite Hnode. f_equal. f_equal. f_equal.
    apply map_ext_in. intros ix Hix.
    specialize (Hin ix Hix). unfold window_at. rewrite slice_inside.
    + do 3 f_equal. lia.
    + lia.
    + rewrite length_map. unfold num_obs in Hin. lia.
  - apply Forall_forall. exact Hin.
Qed.


(** The label of the window of the start index [ix], by positions in the
    node's array. *)
Lemma window_label_by_position (rows : list (list num)) (ix : Z) :
  0 < window_size -> window_size <= ix ->
  Forall (fun row => row <> []) rows ->
  Np.any (firstn (Z.to_nat window_size)
                 (skipn (Z.to_nat (ix - window_size))
                        (map (fun row => last row (lit 0)) rows))) = true
  <->
  exists (i : nat) (channels : list num) (indicator : num),
    ix - window_size <= Z.of_nat i < ix /\
    nth_error rows i = Some (channels ++ [indicator]) /\
    eqb indicator (lit 0) = false.
Proof.
  intros Hw Hix Hrows. rewrite any_true_iff. split.
  - intros (v & Hin & Hv).
    apply In_nth_error in Hin as (j & Hj).
    assert (j < Z.to_nat window_size)%nat as Hjw.
    { destruct (Nat.ltb j (Z.to_nat window_size)) eqn:E.
      - apply Nat.ltb_lt. exact E.
      - rewrite nth_error_firstn, E in Hj. discriminate Hj. }
    rewrite window_rows_nth_error in Hj by exact Hjw.
    rewrite nth_error_map in Hj.
    destruct (nth_error rows (Z.to_nat (ix - window_size) + j))
      as [row |] eqn:Hrow; [| discriminate Hj].
    cbn [option_map] in Hj. injection Hj as Hlast.
    assert (row <> []) as Hne.
    { rewrite Forall_forall in Hrows. apply Hrows.
      eapply nth_error_In. exact Hrow. }
    destruct (exists_last Hne) as (channels & indicator & ->).
    rewrite last_last in Hlast. subst v.
    exists (Z.to_nat (ix - window_size) + j)%nat, channels, indicator.
    split; [lia |]. split; [exact Hrow | exact Hv].
  - intros (i & channels & indicator & Hi & Hrow & Hv).
    exists indicator. split; [| exact Hv].
    apply (nth_error_In _ (i - Z.to_nat (ix - window_size))).
    rewrite window_rows_nth_error by lia.
    rewrite nth_error_map.
    replace (Z.to_nat (ix - window_size) + (i - Z.to_nat (ix - window_size)))%nat
      with i by lia.
    rewrite Hrow. cbn [option_map]. rewrite last_last. reflexivity.
Qed.

(** C10: the labels a recording contributes are Booleans, one for each
    start index window_size, window_size + stride, ... below num_obs, in
    this order, and the label of the start index ix is true exactly when
    some row of the node's array at a position i with
    ix - window_size <= i < ix has a last entry (the indicator) that
    differs from 0; any nonzero value counts, not only 1. *)
Theorem label_is_any_nonzero_indicator (d : dataset num) (nd : node num) :
  0 < window_size -> 0 < stride ->
  (forall X_w, exists f, feature_vector_of X_w = Ok f) ->
  Forall (fun row => row <> []) (read nd) ->
  let num_obs := Z.of_nat (length (read nd)) in
  let starts :=
    map (fun k => window_size + Z.of_nat k * stride)
        (seq 0 (Z.to_nat (range_len window_size num_obs stride))) in
  exists (ls : list bool) d',
    process_node feature_vector_of window_size stride d nd = Ok d' /\
    labels d' = labels d ++ ls /\
    Forall2 (fun ix label =>
               label = true <->
               exists (i : nat) (channels : list num) (indicator : num),
                 ix - window_size <= Z.of_nat i < ix /\
                 nth_error (read nd) i = Some (channels ++ [indicator]) /\
                 eqb indicator (lit 0) = false)
            starts ls.
Proof.
  intros Hw Hstride Hfeat Hrows num_obs starts.
  destruct (process_node_by_position d nd Hw Hstride Hfeat Hrows)
    as (fs & _ & Hnode & Hin).
  fold num_obs in Hin, Hnode. fold starts in Hin, Hnode.
  eexists _, _. split; [exact Hnode |].
  cbn [labels]. split; [reflexivity |].
  apply Forall2_map_of_left.
  eapply Forall_impl; [| exact Hin]. cbv beta. intros ix Hix.
  apply window_label_by_position; [exact Hw | lia | exact Hrows].
Qed.


End WindowContents.

(** ** More on the band relative power *)

(** In float64 a relative power is the rounded quotient of the band power
    by the total power of the channel, and -0.0 where the total power
    compares equal to zero: whenever [welch] returns at least two
    frequencies and PSD columns as long as the frequency list and every
    integration succeeds, [compute_band_relpower] returns five entries per
    channel, band after band, with these values. This holds for every
    integration rule. *)
Theorem relpower_is_float_quotient
        (welch : list (list float) -> list float * list (list float))
        (rule : list float -> float -> result float)
        (X : list (list float)) (freqs : list float)
        (psd : list (list float)) (f0 f1 : float) (tail : list float) :
  welch X = (freqs, psd) ->
  freqs = f0 :: f1 :: tail ->
  Forall (fun col => length col = length freqs) psd ->
  (forall band col, In band bands -> In col psd ->
                    exists a, rule (band_samples freqs band col)
                                   (PrimFloat.sub f1 f0) = Ok a) ->
  (forall col, In col psd ->
               exists t, rule col (PrimFloat.sub f1 f0) = Ok t) ->
  exists r,
    compute_band_relpower welch rule X = Ok r /\
    length r = (5 * length psd)%nat /\
    forall b band c col a t,
      nth_error bands b = Some band -> nth_error psd c = Some col ->
      rule (band_samples freqs band col) (PrimFloat.sub f1 f0) = Ok a ->
      rule col (PrimFloat.sub f1 f0) = Ok t ->
      exists v,
        nth_error r (b * length psd + c) = Some v /\
        (PrimFloat.eqb t 0%float = true -> v = (-0)%float) /\
        (PrimFloat.eqb t 0%float = false -> v = PrimFloat.div a t).
Proof.
  intros Hwelch Hfreqs Hpsd Hsel Htot.
  destruct (compute_band_relpower_entries welch rule X freqs psd f0 f1 tail
              Hwelch Hfreqs Hpsd Hsel Htot)
    as (r & totals & Hr & Hlen & _ & Hentries).
  exists r. split; [exact Hr |]. split; [exact Hlen |].
  intros b band c col a t Hb Hc Ha Ht.
  eexists. split; [apply (Hentries b band c col a t); assumption |].
  unfold relpower_entry.
  change (@eqb float float_dtype) with PrimFloat.eqb.
  change (@div float float_dtype) with PrimFloat.div.
  change (@lit float float_dtype 0) with 0%float.
  change (@lit float float_dtype (-1)) with (-1)%float.
  split; intros Hz; rewrite Hz; reflexivity.
Qed.

(** The five bands split the range from 0.5 to 60 Hz, in exact
    arithmetic: at a position of the frequency list that holds the
    frequency f, the mask of a band holds exactly when f is at least the
    lower and below the upper edge of the band; exactly one of the five
    masks holds when 0.5 <= f < 60, and none holds otherwise. *)
Theorem band_masks_partition (freqs : list Q) (i : nat) (f : Q) :
  nth_error freqs i = Some f ->
  (forall lb ub : Q,
      nth i (where_ freqs lb ub) false = true <-> (lb <= f /\ f < ub)%Q) /\
  (((1 # 2) <= f /\ f < 60)%Q ->
   list_sum (map (fun band : Q * Q =>
                    Nat.b2n (nth i (where_ freqs (fst band) (snd band)) false))
                 bands) = 1%nat) /\
  (~ ((1 # 2) <= f /\ f < 60)%Q ->
   list_sum (map (fun band : Q * Q =>
                    Nat.b2n (nth i (where_ freqs (fst band) (snd band)) false))
                 bands) = 0%nat).
Proof.
  intros Hf.
  assert (forall lb ub : Q,
             nth i (where_ freqs lb ub) false =
             Qle_bool lb f && negb (Qle_bool ub f)) as Hnth.
  { intros lb ub. apply nth_error_nth. unfold where_.
    rewrite nth_error_map, Hf. reflexivity. }
  assert (forall lb ub : Q,
             Qle_bool lb f && negb (Qle_bool ub f) = true <->
             (lb <= f /\ f < ub)%Q) as Hmask.
  { intros lb ub. rewrite andb_true_iff, negb_true_iff, Qle_bool_iff.
    rewrite <- not_true_iff_false, Qle_bool_iff. split.
    - intros (Hl & Hu). split; [exact Hl | apply Qnot_le_lt; exact Hu].
    - intros (Hl & Hu). split; [exact Hl | apply Qlt_not_le; exact Hu]. }
  split; [| split].
  - intros lb ub. rewrite Hnth. apply Hmask.
  - intros (Hlo & Hhi). unfold bands.
    change (@lit Q Q_dtype) with (fun q : Q => q). cbv beta.
    cbn [map fst snd list_sum]. rewrite !Hnth.
    destruct (Qle_bool (1 # 2)%Q f && negb (Qle_bool 4%Q f)) eqn:E1,
             (Qle_bool 4%Q f && negb (Qle_bool 8%Q f)) eqn:E2,
             (Qle_bool 8%Q f && negb (Qle_bool 13%Q f)) eqn:E3,
             (Qle_bool 13%Q f && negb (Qle_bool 32%Q f)) eqn:E4,
             (Qle_bool 32%Q f && negb (Qle_bool 60%Q f)) eqn:E5;
      try reflexivity; exfalso;
      repeat match goal with
             | E : _ && _ = true |- _ => apply Hmask in E
             | E : _ && _ = false |- _ =>
                 apply (proj2 (not_true_iff_false _)) in E;
                 rewrite Hmask in E
             end;
      lra.
  - intros Hout. unfold bands.
    change (@lit Q Q_dtype) with (fun q : Q => q). cbv beta.
    cbn [map fst snd list_sum]. rewrite !Hnth.
    destruct (Qle_bool (1 # 2)%Q f && negb (Qle_bool 4%Q f)) eqn:E1,
             (Qle_bool 4%Q f && negb (Qle_bool 8%Q f)) eqn:E2,
             (Qle_bool 8%Q f && negb (Qle_bool 13%Q f)) eqn:E3,
             (Qle_bool 13%Q f && negb (Qle_bool 32%Q f)) eqn:E4,
             (Qle_bool 32%Q f && negb (Qle_bool 60%Q f)) eqn:E5;
      try reflexivity; exfalso;
      repeat match goal with
             | E : _ && _ = true |- _ => apply Hmask in E
             | E : _ && _ = false |- _ =>
                 apply (proj2 (not_true_iff_false _)) in E;
                 rewrite Hmask in E
             end;
      lra.
Qed.

(** ** The training half of the split *)

Lemma mask_select_by {A B : Type} (g : B -> bool) (a : list A) :
  forall keys : list B,
    length keys = length a ->
    Np.mask_select a (map g keys) =
    Ok (map fst (filter (fun p => g (snd p)) (combine a keys))).
Proof.
  unfold Np.mask_select. intros keys Hlen.
  rewrite length_map, Hlen, Nat.eqb_refl. f_equal.
  revert keys Hlen. induction a as [| x a IH]; intros keys Hlen.
  - destruct keys; [reflexivity | discriminate Hlen].
  - destruct keys as [| k keys]; [discriminate Hlen |].
    injection Hlen as Hlen. simpl. destruct (g k); simpl;
      [f_equal |]; apply IH; exact Hlen.
Qed.

(** The training set is the dataset without the rows of the held-out
    subject: the feature rows and the labels of all other subjects, in
    row order, the two still aligned row by row. *)
Theorem split_train_drops_test_subject {num : Type}
        (test_subject_id : string) (X : list (list num)) (y : list bool)
        (subjects : list string) :
  length subjects = length X -> length subjects = length y ->
  split_train (is_test_set test_subject_id subjects) X y =
  Ok (map fst (filter (of_other_subject test_subject_id) (combine X subjects)),
      map fst (filter (of_other_subject test_subject_id) (combine y subjects)))
  /\
  combine
    (map fst (filter (of_other_subject test_subject_id) (combine X subjects)))
    (map fst (filter (of_other_subject test_subject_id) (combine y subjects)))
  = map fst (filter (of_other_subject test_subject_id)
                    (combine (combine X y) subjects)).
Proof.
  intros HX Hy. split.
  - unfold split_train, is_test_set, Np.logical_not. rewrite map_map.
    rewrite (mask_select_by
               (fun s => negb (String.eqb s test_subject_id)) X subjects HX).
    cbn [bind].
    rewrite (mask_select_by
               (fun s => negb (String.eqb s test_subject_id)) y subjects Hy).
    reflexivity.
  - revert y subjects HX Hy.
    induction X as [| x X IH]; intros y subjects HX Hy.
    + destruct subjects; [| discriminate HX]. destruct y; reflexivity.
    + destruct subjects as [| s subjects]; [discriminate HX |].
      destruct y as [| b y]; [discriminate Hy |].
      injection HX as HX. injection Hy as Hy. cbn [combine filter].
      assert (forall (A : Type) (a : A),
                 of_other_subject test_subject_id (a, s) =
                 negb (String.eqb s test_subject_id)) as Hpair
          by reflexivity.
      rewrite !Hpair.
      destruct (negb (String.eqb s test_subject_id)); cbn [map fst combine];
        [f_equal |]; apply IH; assumption.
Qed.

(** ** The further properties on sample data *)

Lemma last_sample_reaches_no_window_nine_samples :
  exists ws,
    windows 4 2 (channels 9) (indicator 9 0 0 0) = Ok ws /\
    windows 4 2 (altered_last_sample 9) (indicator 9 8 9 1) = Ok ws.
Proof.
  apply (last_sample_reaches_no_window 4 2 (channels 9)
           (altered_last_sample 9) (indicator 9 0 0 0) (indicator 9 8 9 1));
    try lia; reflexivity.
Defined.

Lemma consecutive_windows_overlap_nine_samples :
  skipn (Z.to_nat 2) (window_at 4 (channels 9) 4) =
  firstn (Z.to_nat (4 - 2)) (window_at 4 (channels 9) (4 + 2)).
Proof.
  apply (consecutive_windows_overlap 4 2 (channels 9) [4; 6; 8] 4).
  - lia.
  - lia.
  - reflexivity.
  - simpl. auto.
  - simpl. auto.
Defined.

Lemma windows_leave_no_gap_nine_samples :
  exists ix,
    In ix [4; 6; 8] /\ ix - 4 <= Z.of_nat 5 < ix /\
    nth_error (window_at 4 (channels 9) ix) (5 - Z.to_nat (ix - 4)) =
    nth_error (channels 9) 5.
Proof.
  apply (windows_leave_no_gap 4 2 (channels 9) [4; 6; 8] 8 5).
  - lia.
  - lia.
  - reflexivity.
  - simpl. auto.
  - lia.
Defined.

Lemma negative_stride_descends_nine_samples :
  exists starts,
    window_starts 4 (-2) (Z.of_nat (length (channels 9))) = Ok starts /\
    windows 4 (-2) (channels 9) (indicator 9 0 0 0) =
    Ok (map (fun ix => (window_at 4 (channels 9) ix,
                        window_at 4 (indicator 9 0 0 0) ix)) starts) /\
    (forall ix, In ix starts <->
                (exists k, 0 <= k /\ ix = 4 + k * (-2)) /\
                Z.of_nat (length (channels 9)) < ix) /\
    (4 <= Z.of_nat (length (channels 9)) -> starts = []).
Proof.
  apply (negative_stride_descends 4 (-2) (channels 9) (indicator 9 0 0 0)).
  lia.
Defined.

Lemma extract_keeps_lists_aligned_sample_nodes :
  exists d,
    extract count_features 4 2 sample_nodes = Ok d /\
    length (features d) = length (labels d) /\
    length (labels d) = length (subjects d).
Proof.
  eexists. split; [vm_compute; reflexivity |].
  apply (extract_keeps_lists_aligned count_features 4 2 sample_nodes).
  vm_compute. reflexivity.
Defined.

Lemma extract_only_appends_sample_nodes :
  exists d fs ls ss,
    extract count_features 4 2 (firstn 1 sample_nodes) = Ok d /\
    features (mkDataset [[4]; [4]; [4]; [4]; [4]]%Q
                        [false; true; true; false; false]
                        ["chb01"; "chb01"; "chb01"; "chb02"; "chb02"]%string)
    = features d ++ fs /\
    [false; true; true; false; false] = labels d ++ ls /\
    ["chb01"; "chb01"; "chb01"; "chb02"; "chb02"]%string = subjects d ++ ss.
Proof.
  apply (extract_only_appends count_features 4 2
           (firstn 1 sample_nodes) (skipn 1 sample_nodes)
           (mkDataset [[4]; [4]; [4]; [4]; [4]]%Q
                      [false; true; true; false; false]
                      ["chb01"; "chb01"; "chb01"; "chb02"; "chb02"]%string)).
  vm_compute. reflexivity.
Defined.

Lemma process_node_needs_indicator_column_sample :
  process_node count_features 4 2 empty_dataset columnless_node
  = Raise IndexError.
Proof.
  apply (process_node_needs_indicator_column count_features 4 2
           empty_dataset columnless_node).
  constructor. reflexivity.
Defined.

Lemma sample_nodes_rows_nonempty :
  Forall (fun nd : node Q => Forall (fun row => row <> []) (read nd))
         sample_nodes.
Proof.
  constructor; [exact (recording_rows_nonempty 9 5 6 1) |].
  constructor; [exact (recording_rows_nonempty 7 0 0 0) | constructor].
Qed.

Lemma extract_subjects_by_node_sample_nodes :
  exists d,
    extract count_features 4 2 sample_nodes = Ok d /\
    subjects d =
    flat_map (fun nd : node Q =>
                repeat (subject_id_of (v_name nd))
                       (Z.to_nat (range_len 4 (Z.of_nat (length (read nd))) 2)))
             sample_nodes.
Proof.
  apply (extract_subjects_by_node count_features 4 2 sample_nodes).
  - lia.
  - exact count_features_total.
  - exact sample_nodes_rows_nonempty.
Defined.


Lemma zero_channel_rows_nonempty (n : nat) (lo hi : Z) (flag : Q) :
  Forall (fun row => row <> []) (read (zero_channel_node n lo hi flag)).
Proof.
  apply Forall_forall. intros row Hin. simpl in Hin.
  apply in_map_iff in Hin as (r & <- & _). discriminate.
Qed.

Lemma labels_depend_on_indicator_only_sample :
  exists d1' d2',
    process_node count_features 4 2 empty_dataset (sample_node 9 5 6 1)
    = Ok d1' /\
    process_node (fun _ => Ok []) 4 2 empty_dataset (zero_channel_node 9 5 6 1)
    = Ok d2' /\
    labels d1' = labels d2'.
Proof.
  apply (labels_depend_on_indicator_only count_features 4 2 (fun _ => Ok [])
           empty_dataset empty_dataset
           (sample_node 9 5 6 1) (zero_channel_node 9 5 6 1)).
  - lia.
  - exact count_features_total.
  - intros X_w. eexists. reflexivity.
  - exact (recording_rows_nonempty 9 5 6 1).
  - exact (zero_channel_rows_nonempty 9 5 6 1).
  - vm_compute. reflexivity.
  - reflexivity.
Defined.

Lemma features_ignore_indicator_sample :
  exists d1' d2',
    process_node count_features 4 2 empty_dataset (sample_node 9 5 6 1)
    = Ok d1' /\
    process_node count_features 4 2 empty_dataset (sample_node 9 0 0 0)
    = Ok d2' /\
    features d1' = features d2'.
Proof.
  apply (features_ignore_indicator count_features 4 2
           empty_dataset empty_dataset
           (sample_node 9 5 6 1) (sample_node 9 0 0 0)).
  - lia.
  - exact count_features_total.
  - exact (recording_rows_nonempty 9 5 6 1).
  - exact (recording_rows_nonempty 9 0 0 0).
  - vm_compute. reflexivity.
  - reflexivity.
Defined.

Lemma short_recordings_leave_nothing_to_split_sample :
  extract count_features 4 2 [sample_node 3 0 0 0; sample_node 4 0 0 0]
  = Ok empty_dataset /\
  split Config.test_subject (@empty_dataset Q) = Raise ValueError.
Proof.
  apply (short_recordings_leave_nothing_to_split count_features 4 2
           [sample_node 3 0 0 0; sample_node 4 0 0 0] Config.test_subject).
  - lia.
  - constructor; [split |].
    + exact (recording_rows_nonempty 3 0 0 0).
    + vm_compute. discriminate.
    + constructor; [split | constructor].
      * exact (recording_rows_nonempty 4 0 0 0).
      * vm_compute. discriminate.
Defined.

Lemma split_train_drops_test_subject_sample :
  split_train (is_test_set "chb02" ["chb02"; "chb03"; "chb02"]%string)
              [[1]; [2]; [3]]%Q [true; false; true] =
  Ok (map fst (filter (of_other_subject "chb02")
                      (combine [[1]; [2]; [3]]%Q
                               ["chb02"; "chb03"; "chb02"]%string)),
      map fst (filter (of_other_subject "chb02")
                      (combine [true; false; true]
                               ["chb02"; "chb03"; "chb02"]%string)))
  /\
  combine
    (map fst (filter (of_other_subject "chb02")
                     (combine [[1]; [2]; [3]]%Q
                              ["chb02"; "chb03"; "chb02"]%string)))
    (map fst (filter (of_other_subject "chb02")
                     (combine [true; false; true]
                              ["chb02"; "chb03"; "chb02"]%string)))
  = map fst (filter (of_other_subject "chb02")
                    (combine (combine [[1]; [2]; [3]]%Q [true; false; true])
                             ["chb02"; "chb03"; "chb02"]%string)).
Proof.
  apply (split_train_drops_test_subject "chb02" [[1]; [2]; [3]]%Q
           [true; false; true] ["chb02"; "chb03"; "chb02"]%string);
    reflexivity.
Defined.

Lemma compute_band_relpower_index_errors_single_frequency :
  compute_band_relpower single_frequency_welch simps [] = Raise IndexError.
Proof.
  apply (compute_band_relpower_index_errors single_frequency_welch simps []
           [0%Q] [[1%Q]]).
  - reflexivity.
  - left. simpl. lia.
Defined.

(** The residual of a constant signal, with the modelled Simpson rule. *)
Lemma relpower_is_float_quotient_residual :
  exists r,
    compute_band_relpower residual_welch simps constant_window = Ok r /\
    length r = (5 * length residual_psd)%nat /\
    forall b band c col a t,
      nth_error bands b = Some band -> nth_error residual_psd c = Some col ->
      simps (band_samples flat_freqs band col) (PrimFloat.sub 1 0) = Ok a ->
      simps col (PrimFloat.sub 1 0) = Ok t ->
      exists v,
        nth_error r (b * length residual_psd + c) = Some v /\
        (PrimFloat.eqb t 0%float = true -> v = (-0)%float) /\
        (PrimFloat.eqb t 0%float = false -> v = PrimFloat.div a t).
Proof.
  assert (Forall (fun col : list float => length col = length flat_freqs)
                 residual_psd) as Hlen by (repeat constructor).
  assert (Forall (fun band => band_selects flat_freqs band = true)
                 (bands (num := float))) as Hbands
      by (repeat (constructor; [vm_compute; reflexivity |]); constructor).
  destruct (simps_succeeds_on_bands flat_freqs residual_psd 0%float 1%float
              (skipn 2 flat_freqs) (PrimFloat.sub 1 0)
              ltac:(vm_compute; reflexivity) Hlen Hbands) as (Hsel & Htot).
  apply (relpower_is_float_quotient residual_welch simps constant_window
           flat_freqs residual_psd 0%float 1%float (skipn 2 flat_freqs)).
  - reflexivity.
  - vm_compute. reflexivity.
  - exact Hlen.
  - exact Hsel.
  - exact Htot.
Defined.

(** The frequency 2 Hz, at position 2 of the frequency list, lies in the
    first band only. *)
Lemma band_masks_partition_two_hertz :
  (forall lb ub : Q,
      nth 2 (where_ tone_freqs lb ub) false = true <-> (lb <= 2 /\ 2 < ub)%Q) /\
  (((1 # 2) <= 2 /\ 2 < 60)%Q ->
   list_sum (map (fun band : Q * Q =>
                    Nat.b2n (nth 2 (where_ tone_freqs (fst band) (snd band))
                                 false))
                 bands) = 1%nat) /\
  (~ ((1 # 2) <= 2 /\ 2 < 60)%Q ->
   list_sum (map (fun band : Q * Q =>
                    Nat.b2n (nth 2 (where_ tone_freqs (fst band) (snd band))
                                 false))
                 bands) = 0%nat).
Proof.
  apply (band_masks_partition tone_freqs 2 2%Q). reflexivity.
Defined.


Lemma label_is_any_nonzero_indicator_two :
  exists (ls : list bool) d',
    process_node count_features 4 2 empty_dataset (sample_node 9 5 6 2)
    = Ok d' /\
    labels d' = [] ++ ls /\
    Forall2 (fun ix label =>
               label = true <->
               exists (i : nat) (channels : list Q) (indicator : Q),
                 ix - 4 <= Z.of_nat i < ix /\
                 nth_error (recording 9 5 6 2) i
                 = Some (channels ++ [indicator]) /\
                 Qeq_bool indicator 0 = false)
            [4; 6; 8] ls.
Proof.
  exact (label_is_any_nonzero_indicator count_features 4 2 empty_dataset
           (sample_node 9 5 6 2) ltac:(lia) ltac:(lia)
           count_features_total (recording_rows_nonempty 9 5 6 2)).
Defined.

